(** * ShopSmart storefront: the resilient API client

    A shallow embedding of the [CircuitBreaker] and [APIClient] classes of
    the storefront's API client script (circuit breaker, retry loop with
    exponential backoff, token refresh on 401, rolling request metrics),
    and the properties of them that the specification states.

    JavaScript numbers that hold counts, HTTP statuses and millisecond
    timestamps are integers [Z]; delays, which mix in [Math.random()], are
    exact rationals [Q] (rounding of doubles is not modelled).  Objects
    that the code mutates and shares (the breakers of the client's [Map],
    the metrics, the stored session) live in one [World] record that every
    operation threads through. *)

From Stdlib Require Import ZArith QArith Qminmax Qround Lia Ascii.
From stdpp Require Import gmap strings list fin_maps pretty.

Local Open Scope string_scope.
Local Open Scope list_scope.
Local Open Scope Z_scope.

(** ** Error values *)

(** A thrown JavaScript error: its [name], its [message] and the [status]
    property, which only [APIError] sets. *)
Record JsError := mkError {
  name : string;
  message : string;
  status : option Z
}.

(** [new Error(msg)] *)
Definition Error (msg : string) : JsError := mkError "Error" msg None.

(** [new APIError(message, status, code, details)]; [code] and [details]
    are carried to the caller only and are left out. *)
Definition APIError (msg : string) (st : Z) : JsError :=
  mkError "APIError" msg (Some st).

#[global] Instance JsError_eq_dec : EqDecision JsError.
Proof. solve_decision. Defined.

(** ** CircuitBreaker *)

Inductive BreakerState := CLOSED | OPEN | HALF_OPEN.

#[global] Instance BreakerState_eq_dec : EqDecision BreakerState.
Proof. solve_decision. Defined.

Record CircuitBreaker := mkBreaker {
  threshold : Z;
  timeout : Z;
  monitoringPeriod : Z;
  failureCount : Z;
  lastFailureTime : option Z;
  state : BreakerState;
  nextAttempt : Z
}.

(** [new CircuitBreaker(threshold, timeout, monitoringPeriod)], built when
    [Date.now()] is [now]. *)
Definition new_CircuitBreaker (th tmo period now : Z) : CircuitBreaker :=
  {| threshold := th; timeout := tmo; monitoringPeriod := period;
     failureCount := 0; lastFailureTime := None;
     state := CLOSED; nextAttempt := now |}.

(** The callback that [startMonitoring] hands to [setInterval], run when
    [Date.now()] is [now]. *)
Definition monitor (now : Z) (cb : CircuitBreaker) : CircuitBreaker :=
  if bool_decide (state cb = OPEN) && (nextAttempt cb <=? now)
  then {| threshold := threshold cb; timeout := timeout cb;
          monitoringPeriod := monitoringPeriod cb;
          failureCount := failureCount cb;
          lastFailureTime := lastFailureTime cb;
          state := HALF_OPEN; nextAttempt := nextAttempt cb |}
  else cb.

Definition onSuccess (cb : CircuitBreaker) : CircuitBreaker :=
  {| threshold := threshold cb; timeout := timeout cb;
     monitoringPeriod := monitoringPeriod cb;
     failureCount := 0;
     lastFailureTime := lastFailureTime cb;
     state := if bool_decide (state cb = HALF_OPEN) then CLOSED else state cb;
     nextAttempt := nextAttempt cb |}.

Definition onFailure (now : Z) (cb : CircuitBreaker) : CircuitBreaker :=
  let count := failureCount cb + 1 in
  if threshold cb <=? count
  then {| threshold := threshold cb; timeout := timeout cb;
          monitoringPeriod := monitoringPeriod cb;
          failureCount := count; lastFailureTime := Some now;
          state := OPEN; nextAttempt := now + timeout cb |}
  else {| threshold := threshold cb; timeout := timeout cb;
          monitoringPeriod := monitoringPeriod cb;
          failureCount := count; lastFailureTime := Some now;
          state := state cb; nextAttempt := nextAttempt cb |}.

(** The error [execute] throws while the breaker is OPEN. *)
Definition circuitOpenError : JsError :=
  Error "Circuit breaker is OPEN - service unavailable".

(** ** Metrics *)

Record Metrics := mkMetrics {
  totalRequests : Z;
  successfulRequests : Z;
  failedRequests : Z;
  averageResponseTime : Q;
  requestTimes : list Z
}.

Definition new_Metrics : Metrics :=
  {| totalRequests := 0; successfulRequests := 0; failedRequests := 0;
     averageResponseTime := 0%Q; requestTimes := [] |}.

(** [requestTimes.reduce((a, b) => a + b, 0) / requestTimes.length] *)
Definition average (times : list Z) : Q :=
  Qdiv (inject_Z (fold_left Z.add times 0)) (inject_Z (Z.of_nat (length times))).

Definition updateMetrics (success : bool) (duration : Z) (m : Metrics) : Metrics :=
  let pushed := requestTimes m ++ [duration] in
  let times := if (100 <? length pushed)%nat then tail pushed else pushed in
  {| totalRequests := totalRequests m;
     successfulRequests :=
       if success then successfulRequests m + 1 else successfulRequests m;
     failedRequests :=
       if success then failedRequests m else failedRequests m + 1;
     averageResponseTime := average times;
     requestTimes := times |}.

Definition count_request (m : Metrics) : Metrics :=
  {| totalRequests := totalRequests m + 1;
     successfulRequests := successfulRequests m;
     failedRequests := failedRequests m;
     averageResponseTime := averageResponseTime m;
     requestTimes := requestTimes m |}.

(** ** The environment of the client *)

(** The parsed JSON body of a response, as far as this code reads it:
    [message] of an error body, [token] and [refreshToken] of a refresh
    reply.  Absent fields are [None]. *)
Record Json := mkJson {
  j_message : option string;
  j_token : option string;
  j_refreshToken : option string
}.

(** What [response.json()] does: it yields the parsed body, or throws a
    [SyntaxError] with some message. *)
Inductive Body :=
| Parsed (j : Json)
| Unparseable (msg : string).

Record Response := mkResponse {
  r_status : Z;
  r_statusText : string;
  r_body : Body
}.

(** [response.ok]: the status is in the range 200-299. *)
Definition ok (r : Response) : bool :=
  (200 <=? r_status r) && (r_status r <=? 299).

(** What one call of [fetch] does: it resolves with a response, or rejects
    with a [TypeError] (network failure) or with an [AbortError] (the
    attempt's timeout aborted it). *)
Inductive FetchErrorKind := TypeError | AbortError.

Inductive FetchOutcome :=
| Responds (r : Response)
| Throws (kind : FetchErrorKind) (msg : string).

(** The part of the run that the program does not decide: the outcome and
    the duration of the k-th [fetch], and the k-th draw of
    [Math.random()]. *)
Record Env := mkEnv {
  network : nat -> FetchOutcome;
  elapsed : nat -> Z;
  random : nat -> Q
}.

(** The stored session ([Utils.storage] under [USER_STORAGE_KEY]). *)
Record User := mkUser {
  token : option string;
  refreshToken_of : option string
}.

(** What a run does that an observer outside can count. *)
Inductive Event :=
| EvAttempt (u : string) (o : FetchOutcome)   (* the [fetch] of [executeRequest] *)
| EvSleep (ms : Q)                            (* [this.sleep(delay)] *)
| EvRefresh                                   (* [this.refreshToken()] is called *)
| EvRefreshFetch (o : FetchOutcome)           (* the [fetch] of [refreshToken] *)
| EvReissue (u : string)                      (* [this.request(config)] of the 401 interceptor *)
| EvAuthFailure.                              (* [handleAuthenticationFailure()] *)

Record World := mkWorld {
  now : Z;
  circuitBreakers : gmap string CircuitBreaker;
  metrics : Metrics;
  storedUser : option User;
  fetches : nat;
  draws : nat;
  log : list Event
}.

Definition set_now (t : Z) (w : World) : World :=
  mkWorld t (circuitBreakers w) (metrics w) (storedUser w) (fetches w) (draws w) (log w).
Definition set_circuitBreakers (m : gmap string CircuitBreaker) (w : World) : World :=
  mkWorld (now w) m (metrics w) (storedUser w) (fetches w) (draws w) (log w).
Definition set_metrics (m : Metrics) (w : World) : World :=
  mkWorld (now w) (circuitBreakers w) m (storedUser w) (fetches w) (draws w) (log w).
Definition set_storedUser (u : option User) (w : World) : World :=
  mkWorld (now w) (circuitBreakers w) (metrics w) u (fetches w) (draws w) (log w).
Definition set_fetches (n : nat) (w : World) : World :=
  mkWorld (now w) (circuitBreakers w) (metrics w) (storedUser w) n (draws w) (log w).
Definition set_draws (n : nat) (w : World) : World :=
  mkWorld (now w) (circuitBreakers w) (metrics w) (storedUser w) (fetches w) n (log w).
Definition emit (e : Event) (w : World) : World :=
  mkWorld (now w) (circuitBreakers w) (metrics w) (storedUser w) (fetches w) (draws w)
          (log w ++ [e]).

(** How an asynchronous call settles: it resolves with a value or rejects
    with what was thrown, which is [None] for [throw undefined]. *)
Inductive Outcome :=
| Resolved (v : Json)
| Rejected (e : option JsError).

(** An asynchronous operation: [None] means the model gives no result
    (recursion budget used up, or a method called on no object). *)
Definition Operation := World -> option (Outcome * World).

(** ** CircuitBreaker.execute *)

(** The breaker object is the entry [self] of the client's map; [this]
    is read again after the operation has run, since the operation may
    itself go through the same breaker. *)
Definition with_breaker (self : string) (f : CircuitBreaker -> CircuitBreaker)
    (w : World) : World :=
  set_circuitBreakers (alter f self (circuitBreakers w)) w.

Definition execute (self : string) (operation : Operation) : Operation :=
  fun w =>
    match circuitBreakers w !! self with
    | None => None
    | Some cb =>
        if bool_decide (state cb = OPEN)
        then Some (Rejected (Some circuitOpenError), w)
        else
          match operation w with
          | None => None
          | Some (Resolved v, w') => Some (Resolved v, with_breaker self onSuccess w')
          | Some (Rejected e, w') =>
              Some (Rejected e, with_breaker self (onFailure (now w')) w')
          end
    end.

(** The interval timer of the breaker [self] fires. *)
Definition timer_fires (self : string) (w : World) : World :=
  with_breaker self (monitor (now w)) w.

(** ** APIClient *)

(** A request configuration, as the request interceptor leaves it: the
    [Authorization] header and [_startTime] are fields of their own.
    [method], [data], [timeout] and the other headers do not steer the
    code modelled here and are left out. *)
Record Config := mkConfig {
  url : string;
  retries : option Z;
  retryDelay : option Q;
  _retry : bool;
  _startTime : Z;
  authorization : option string
}.

Definition set__retry (b : bool) (c : Config) : Config :=
  mkConfig (url c) (retries c) (retryDelay c) b (_startTime c) (authorization c).

(** The constants that the constructor of [APIClient] sets. *)
Definition maxRetries : Z := 3.
Definition this_retryDelay : Q := 1000%Q.

(** A value used as a condition: an absent or empty string is falsy. *)
Definition truthy (o : option string) : bool :=
  match o with
  | Some s => negb (String.eqb s "")
  | None => false
  end.

(** [a || b] on strings. *)
Definition or_else (o : option string) (d : string) : string :=
  if truthy o then default d o else d.

(** [s.includes(sub)] *)
Fixpoint includes (s sub : string) : bool :=
  String.prefix sub s ||
  match s with
  | EmptyString => false
  | String _ s' => includes s' sub
  end.

Definition getServiceFromUrl (u : string) : string :=
  if includes u "/api/products" || includes u "/products" then "products"
  else if includes u "/api/auth" || includes u "/auth" then "auth"
  else if includes u "/api/orders" || includes u "/orders" then "orders"
  else "unknown".

Definition shouldRetry (error : JsError) : bool :=
  String.eqb (name error) "AbortError"
  || String.eqb (name error) "TypeError"
  || match status error with
     | Some st => (500 <=? st) && (st <? 600)
     | None => false
     end
  || match status error with
     | Some st => st =? 429
     | None => false
     end.

(** [calculateRetryDelay(attempt, baseDelay)], with the value [rnd] that
    [Math.random()] returns. *)
Definition calculateRetryDelay (rnd : Q) (attempt : Z) (baseDelay : Q) : Q :=
  let exponentialDelay := (baseDelay * 2 ^ attempt)%Q in
  let jitter := (rnd * 1000)%Q in
  Qmin (exponentialDelay + jitter) 30000.

(** [initializeCircuitBreakers], at the instant [t]. *)
Definition services : list string := ["products"; "auth"; "orders"].

Definition initializeCircuitBreakers (t : Z) : gmap string CircuitBreaker :=
  fold_left (fun m service => <[service := new_CircuitBreaker 5 60000 10000 t]> m)
            services ∅.

(** [new APIClient()], at the instant [t], with [user] in the storage. *)
Definition new_APIClient (t : Z) (user : option User) : World :=
  {| now := t; circuitBreakers := initializeCircuitBreakers t;
     metrics := new_Metrics; storedUser := user;
     fetches := O; draws := O; log := [] |}.

(** [resetMetrics] *)
Definition resetMetrics (w : World) : World := set_metrics new_Metrics w.

Section Client.

Variable env : Env.

(** One call of [fetch]: the environment decides its outcome and how long
    it takes. *)
Definition fetch (w : World) : FetchOutcome * World :=
  let k := fetches w in
  (network env k, set_now (now w + elapsed env k) (set_fetches (S k) w)).

(** One call of [Math.random()]. *)
Definition Math_random (w : World) : Q * World :=
  (random env (draws w), set_draws (S (draws w)) w).

(** [this.sleep(ms)]: the timer resumes the caller after [ms]. *)
Definition sleep (ms : Q) (w : World) : World :=
  emit (EvSleep ms) (set_now (now w + Z.max 0 (Qceiling ms)) w).

(** The error with which a failed [fetch] rejects. *)
Definition fetch_error (kind : FetchErrorKind) (msg : string) : JsError :=
  match kind with
  | AbortError => mkError "AbortError" msg None
  | TypeError => mkError "TypeError" msg None
  end.

Definition parseErrorResponse (r : Response) : Json :=
  match r_body r with
  | Parsed j => j
  | Unparseable _ =>
      {| j_message := Some (or_else (Some (r_statusText r)) "Unknown error");
         j_token := None; j_refreshToken := None |}
  end.

Definition refreshToken (w : World) : (JsError + option string) * World :=
  let w := emit EvRefresh w in
  match storedUser w with
  | None => (inl (Error "No refresh token available"), w)
  | Some user =>
      if negb (truthy (refreshToken_of user))
      then (inl (Error "No refresh token available"), w)
      else
        let '(o, w) := fetch w in
        let w := emit (EvRefreshFetch o) w in
        match o with
        | Responds response =>
            if negb (ok response) then (inl (Error "Token refresh failed"), w)
            else
              match r_body response with
              | Unparseable msg => (inl (mkError "SyntaxError" msg None), w)
              | Parsed data =>
                  let updatedUser :=
                    {| token := j_token data;
                       refreshToken_of :=
                         if truthy (j_refreshToken data) then j_refreshToken data
                         else refreshToken_of user |} in
                  (inr (j_token data), set_storedUser (Some updatedUser) w)
              end
        | Throws kind msg => (inl (fetch_error kind msg), w)
        end
  end.

Definition handleAuthenticationFailure (w : World) : World :=
  emit EvAuthFailure (set_storedUser None w).

(** The request interceptor of [setupDefaultInterceptors].  The
    [X-Request-ID] header is not kept, but [generateRequestId] takes its
    draw of [Math.random()]. *)
Definition requestInterceptor (config : Config) (w : World) : Config * World :=
  let auth :=
    match storedUser w with
    | Some user =>
        if truthy (token user) then Some ("Bearer " +:+ default "" (token user))
        else authorization config
    | None => authorization config
    end in
  let '(_, w) := Math_random w in
  (mkConfig (url config) (retries config) (retryDelay config) (_retry config)
            (now w) auth, w).

(** The two response interceptors: both record the duration.  What
    [logRequest] and [logError] write to the console and to the telemetry
    client is not part of the world. *)
Definition responseSuccess (config : Config) (w : World) : World :=
  let duration := now w - _startTime config in
  set_metrics (updateMetrics true duration (metrics w)) w.

Definition responseError (config : Config) (w : World) : World :=
  let start := if _startTime config =? 0 then now w else _startTime config in
  let duration := now w - start in
  set_metrics (updateMetrics false duration (metrics w)) w.

(** The error interceptor that refreshes the token.  It returns how its
    promise settles and the configuration, whose [_retry] it may set. *)
Definition errorInterceptor (reissue : Config -> Operation)
    (error : JsError) (config : Config) (w : World)
  : option (Outcome * Config * World) :=
  if bool_decide (status error = Some 401) && negb (_retry config) then
    match refreshToken w with
    | (inr _, w) =>
        let config := set__retry true config in
        match reissue config (emit (EvReissue (url config)) w) with
        | Some (o, w) => Some (o, config, w)
        | None => None
        end
    | (inl refreshError, w) =>
        Some (Rejected (Some refreshError), config, handleAuthenticationFailure w)
    end
  else Some (Rejected (Some error), config, w).

(** The [try] block of one attempt, after [fetch] has settled: the value
    it returns, or the error it throws. *)
Definition attempt_body (config : Config) (o : FetchOutcome) (w : World)
  : (JsError + Json) * World :=
  match o with
  | Responds response =>
      if negb (ok response) then
        let errorData := parseErrorResponse response in
        (inl (APIError (or_else (j_message errorData)
                                ("HTTP " +:+ pretty (r_status response)))
                       (r_status response)), w)
      else
        match r_body response with
        | Unparseable msg => (inl (mkError "SyntaxError" msg None), w)
        | Parsed responseData => (inr responseData, responseSuccess config w)
        end
  | Throws kind msg => (inl (fetch_error kind msg), w)
  end.

(** The [for] loop of [executeRequest]: [n] iterations are left,
    [attempt] is the loop variable. *)
Fixpoint attempts (reissue : Config -> Operation) (rts : Z) (delay : Q)
    (n : nat) (attempt : Z) (config : Config) (lastError : option JsError)
    (w : World) : option (Outcome * World) :=
  match n with
  | O => Some (Rejected lastError, w)
  | S n' =>
      let w := set_metrics (count_request (metrics w)) w in
      let '(o, w) := fetch w in
      let w := emit (EvAttempt (url config) o) w in
      match attempt_body config o w with
      | (inr processedResponse, w) => Some (Resolved processedResponse, w)
      | (inl error, w) =>
          let w := responseError config w in
          match errorInterceptor reissue error config w with
          | None => None
          | Some (Resolved v, _, w) => Some (Resolved v, w)
          | Some (Rejected lastError, config, w) =>
              if (attempt <? rts) && shouldRetry error then
                let '(rnd, w) := Math_random w in
                let w := sleep (calculateRetryDelay rnd attempt delay) w in
                attempts reissue rts delay n' (attempt + 1) config lastError w
              else Some (Rejected lastError, w)
          end
      end
  end.

(** [executeRequest(config)]; [reissue] is [this.request], which the 401
    interceptor calls.  The loop runs for [attempt = 0 .. retries]. *)
Definition executeRequest (reissue : Config -> Operation) (config : Config)
  : Operation :=
  let rts := default maxRetries (retries config) in
  let delay := default this_retryDelay (retryDelay config) in
  attempts reissue rts delay (Z.to_nat (rts + 1)) 0 config None.

(** [request(config)].  [fuel] bounds how deep [request] may call itself
    through the 401 interceptor. *)
Fixpoint request (fuel : nat) (config : Config) (w : World)
  : option (Outcome * World) :=
  match fuel with
  | O => None
  | S fuel' =>
      let '(processedConfig, w) := requestInterceptor config w in
      let service := getServiceFromUrl (url processedConfig) in
      match circuitBreakers w !! service with
      | Some _ => execute service (executeRequest (request fuel') processedConfig) w
      | None => executeRequest (request fuel') processedConfig w
      end
  end.

End Client.

(** ** Sequential use of one breaker *)

(** An operation that settles with [o] at the instant [t] and touches
    nothing else. *)
Definition settles (o : Outcome) (t : Z) : Operation :=
  fun w => Some (o, set_now t w).

(** What can happen to a breaker between two observations: a call of
    [execute] runs to its end, or the interval timer fires. *)
Inductive Step :=
| Calls (o : Outcome) (t : Z)
| TimerFires (t : Z).

Definition step (self : string) (s : Step) (w : World) : option World :=
  match s with
  | Calls o t =>
      match execute self (settles o t) w with
      | Some (_, w') => Some w'
      | None => None
      end
  | TimerFires t => Some (timer_fires self (set_now t w))
  end.

Fixpoint run (self : string) (steps : list Step) (w : World) : option World :=
  match steps with
  | [] => Some w
  | s :: steps' =>
      match step self s w with
      | Some w' => run self steps' w'
      | None => None
      end
  end.

(** The same steps, on the breaker alone. *)
Definition transition (s : Step) (cb : CircuitBreaker) : CircuitBreaker :=
  match s with
  | Calls (Resolved _) _ =>
      if bool_decide (state cb = OPEN) then cb else onSuccess cb
  | Calls (Rejected _) t =>
      if bool_decide (state cb = OPEN) then cb else onFailure t cb
  | TimerFires t => monitor t cb
  end.

Definition transitions (steps : list Step) (cb : CircuitBreaker) : CircuitBreaker :=
  fold_left (fun cb s => transition s cb) steps cb.

(** [failures fs]: calls that fail one after the other, each with its
    error and at its instant. *)
Definition failures (fs : list (option JsError * Z)) : list Step :=
  map (fun f => Calls (Rejected (fst f)) (snd f)) fs.

(** While a breaker is not CLOSED, its failure count has reached the
    threshold. *)
Definition tripped (cb : CircuitBreaker) : Prop :=
  state cb <> CLOSED -> threshold cb <= failureCount cb.

(** The count is not negative, and a CLOSED breaker has not reached a
    threshold of 1 or more. *)
Definition below (cb : CircuitBreaker) : Prop :=
  0 <= failureCount cb /\
  (1 <= threshold cb -> state cb = CLOSED -> failureCount cb < threshold cb).

(** ** Counting what a run did *)

Definition is_attempt (e : Event) : bool :=
  match e with EvAttempt _ _ => true | _ => false end.
Definition is_sleep (e : Event) : bool :=
  match e with EvSleep _ => true | _ => false end.
Definition is_refresh (e : Event) : bool :=
  match e with EvRefresh => true | _ => false end.
Definition is_reissue (e : Event) : bool :=
  match e with EvReissue _ => true | _ => false end.
Definition is_401 (e : Event) : bool :=
  match e with
  | EvAttempt _ (Responds r) => r_status r =? 401
  | _ => false
  end.

Definition is_authFailure (e : Event) : bool :=
  match e with EvAuthFailure => true | _ => false end.

Definition count (p : Event -> bool) (l : list Event) : nat :=
  length (filter (fun e => p e = true) l).

(** ** Scripted environments *)

(** A response with the status [st] and an empty JSON object as body. *)
Definition response (st : Z) : Response :=
  mkResponse st "" (Parsed (mkJson None None None)).

(** The reply of the refresh endpoint that carries a new token. *)
Definition refreshed (tok : string) : Response :=
  mkResponse 200 "OK" (Parsed (mkJson None (Some tok) None)).

(** The environment whose [fetch] calls settle as [script] lists them,
    and with status 200 after the end of the script; every call takes 10
    ms and [Math.random()] returns 1/2. *)
Definition scripted (script : list FetchOutcome) : Env :=
  mkEnv (fun k => nth k script (Responds (response 200)))
        (fun _ => 10) (fun _ => (1 # 2)%Q).

(** The environment in which every response has the status [st]. *)
Definition always (st : Z) : Env :=
  mkEnv (fun _ => Responds (response st)) (fun _ => 10) (fun _ => (1 # 2)%Q).

(** A request for [u] as a caller makes it. *)
Definition get (u : string) : Config :=
  mkConfig u None None false 0 None.

(** ** URLs of the API gateway *)

(** The keys of [API_CONFIG.API_GATEWAY.ENDPOINTS]. *)
Inductive Endpoint :=
| PRODUCTS | PRODUCT_DETAIL | PRODUCT_CATEGORIES | PRODUCT_MATERIALS
| PRODUCT_STYLES | PRODUCT_AVAILABILITY | PRODUCT_RESERVE
| AUTH_LOGIN | AUTH_REGISTER | AUTH_LOGOUT | AUTH_REFRESH | AUTH_VALIDATE
| AUTH_PROFILE | AUTH_CART | AUTH_CART_ITEMS | AUTH_CART_ITEM | AUTH_CLEAR_CART
| ORDERS | ORDER_DETAIL | USER_ORDERS | ORDER_STATUS
| HEALTH.

Definition ENDPOINTS (endpoint : Endpoint) : string :=
  match endpoint with
  | PRODUCTS => "/products"
  | PRODUCT_DETAIL => "/products/{id}"
  | PRODUCT_CATEGORIES => "/products/categories"
  | PRODUCT_MATERIALS => "/products/materials"
  | PRODUCT_STYLES => "/products/styles"
  | PRODUCT_AVAILABILITY => "/products/{id}/availability"
  | PRODUCT_RESERVE => "/products/{id}/reserve"
  | AUTH_LOGIN => "/auth/login"
  | AUTH_REGISTER => "/auth/register"
  | AUTH_LOGOUT => "/auth/logout"
  | AUTH_REFRESH => "/auth/refresh"
  | AUTH_VALIDATE => "/auth/validate/{sessionId}"
  | AUTH_PROFILE => "/auth/profile"
  | AUTH_CART => "/auth/cart/{userId}"
  | AUTH_CART_ITEMS => "/auth/cart/{userId}/items"
  | AUTH_CART_ITEM => "/auth/cart/{userId}/items/{itemId}"
  | AUTH_CLEAR_CART => "/auth/cart/{userId}"
  | ORDERS => "/orders"
  | ORDER_DETAIL => "/orders/{orderId}"
  | USER_ORDERS => "/orders/user/{userId}"
  | ORDER_STATUS => "/orders/{orderId}/status"
  | HEALTH => "/health"
  end.

(** [API_CONFIG.API_GATEWAY.BASE_URL]: the script sets it to the empty
    string in both branches of its environment test. *)
Definition BASE_URL : string := "".

(** [s] without its prefix [sub], when [sub] is a prefix of [s]. *)
Fixpoint strip_prefix (sub s : string) : option string :=
  match sub with
  | EmptyString => Some s
  | String a sub' =>
      match s with
      | EmptyString => None
      | String b s' => if Ascii.eqb a b then strip_prefix sub' s' else None
      end
  end.

(** The text before and the text after the first occurrence of [sub]. *)
Fixpoint find_first (s sub : string) : option (string * string) :=
  match strip_prefix sub s with
  | Some rest => Some (EmptyString, rest)
  | None =>
      match s with
      | EmptyString => None
      | String c s' =>
          match find_first s' sub with
          | Some (before, after) => Some (String c before, after)
          | None => None
          end
      end
  end.

(** The replacement text of [String.prototype.replace] for a pattern that
    is a string (so there are no capture groups): [$$] is a dollar sign,
    [$&] the matched text, [$`] the text before it, [$'] the text after
    it, and any other character after a dollar sign leaves both as they
    are. *)
Fixpoint GetSubstitution (matched before after replacement : string) : string :=
  match replacement with
  | EmptyString => EmptyString
  | String c tl =>
      if Ascii.eqb c "$"%char then
        match tl with
        | EmptyString => String c EmptyString
        | String c' tl' =>
            if Ascii.eqb c' "$"%char then
              String "$"%char (GetSubstitution matched before after tl')
            else if Ascii.eqb c' "&"%char then
              matched +:+ GetSubstitution matched before after tl'
            else if Ascii.eqb c' "`"%char then
              before +:+ GetSubstitution matched before after tl'
            else if Ascii.eqb c' "'"%char then
              after +:+ GetSubstitution matched before after tl'
            else String c (GetSubstitution matched before after tl)
        end
      else String c (GetSubstitution matched before after tl)
  end.

(** [s.replace(pattern, replacement)] for a pattern that is a string: the
    first occurrence only. *)
Definition String_replace (s pattern replacement : string) : string :=
  match find_first s pattern with
  | None => s
  | Some (before, after) =>
      before +:+ GetSubstitution pattern before after replacement +:+ after
  end.

(** [buildUnifiedApiUrl(endpoint, params)]; [params] lists the entries of
    the object in the order of [Object.keys], the values as strings. *)
Definition buildUnifiedApiUrl (endpoint : Endpoint)
    (params : list (string * string)) : string :=
  match endpoint with
  | HEALTH => "" +:+ "/health"
  | _ =>
      fold_left
        (fun u kv => String_replace u ("{" +:+ fst kv +:+ "}") (snd kv))
        params (BASE_URL +:+ ENDPOINTS endpoint)
  end.

(** ** The event bus *)

Module EventBus.

(** The names that every object inherits from [Object.prototype]: for
    these [EventBus.events[event]] is not a list of callbacks. *)
Definition inherited (event : string) : bool :=
  bool_decide (event ∈ ["constructor"; "hasOwnProperty"; "isPrototypeOf";
                        "propertyIsEnumerable"; "toLocaleString"; "toString";
                        "valueOf"; "__proto__"; "__defineGetter__";
                        "__defineSetter__"; "__lookupGetter__";
                        "__lookupSetter__"]).

(** [EventBus.events]: the callbacks of each event, in the order of
    registration.  A callback is a function object, known by its
    identity. *)
Abbreviation Events := (gmap string (list nat)).

(** The three methods; [None] is the [TypeError] that an inherited name
    gives. *)
Definition on (event : string) (callback : nat) (events : Events) : option Events :=
  if inherited event then None
  else Some (<[event := default [] (events !! event) ++ [callback]]> events).

Definition off (event : string) (callback : nat) (events : Events) : option Events :=
  if inherited event then None
  else
    match events !! event with
    | Some callbacks =>
        Some (<[event := filter (fun cb => cb <> callback) callbacks]> events)
    | None => Some events
    end.

(** [EventBus.emit(event, data)]: the callbacks it calls, in this order
    (as long as none of them throws). *)
Definition emit (event : string) (events : Events) : option (list nat) :=
  if inherited event then None
  else Some (default [] (events !! event)).

End EventBus.

(** ** The rest of the client *)

(** [destroy()]: the timers are cleared and the map is emptied. *)
Definition destroy (w : World) : World := set_circuitBreakers ∅ w.

(** What [healthCheck()] resolves with, or the error it rejects with. *)
Inductive Health :=
| healthy (responseTime : Z) (details : Json)
| unhealthy (error : string)
| health_rejected (e : JsError).

(** [healthCheck()]: a GET of the health URL; reading [error.message] of
    a thrown [undefined] is a [TypeError]. *)
Definition healthCheck (env : Env) (fuel : nat) (w : World) : option (Health * World) :=
  let startTime := now w in
  match request env fuel (get (buildUnifiedApiUrl HEALTH [])) w with
  | Some (Resolved response, w') => Some (healthy (now w' - startTime) response, w')
  | Some (Rejected (Some error), w') => Some (unhealthy (message error), w')
  | Some (Rejected None, w') =>
      Some (health_rejected
              (mkError "TypeError" "Cannot read properties of undefined" None), w')
  | None => None
  end.

(** ** The steps of a request *)

(** The world after one attempt for [u]: the request is counted, [fetch]
    has settled with [o], and a response interceptor has recorded the
    duration [d] as a success or as a failure. *)
Definition attempted (env : Env) (u : string) (o : FetchOutcome)
    (success : bool) (d : Z) (w : World) : World :=
  set_metrics
    (updateMetrics success d (count_request (metrics w)))
    (emit (EvAttempt u o)
       (set_now (now w + elapsed env (fetches w))
          (set_fetches (S (fetches w))
             (set_metrics (count_request (metrics w)) w)))).

(** Everything that a request for [u] does to the world, one step at a
    time. *)
Inductive prim (env : Env) (u : string) : World -> World -> Prop :=
| prim_intercept w :
    prim env u w (set_draws (S (draws w)) w)
| prim_attempt w success d :
    prim env u w (attempted env u (network env (fetches w)) success d w)
| prim_refresh w r w' :
    refreshToken env w = (r, w') -> prim env u w w'
| prim_authFailure w :
    prim env u w (handleAuthenticationFailure w)
| prim_reissue w :
    prim env u w (emit (EvReissue u) w)
| prim_sleep w attempt delay :
    prim env u w
      (sleep (calculateRetryDelay (random env (draws w)) attempt delay)
             (set_draws (S (draws w)) w))
| prim_onSuccess w :
    prim env u w (with_breaker (getServiceFromUrl u) onSuccess w)
| prim_onFailure w t :
    prim env u w (with_breaker (getServiceFromUrl u) (onFailure t) w).

(** The events of a token refresh. *)
Definition refresh_events (evs : list Event) : Prop :=
  evs = [EvRefresh] \/ exists o, evs = [EvRefresh; EvRefreshFetch o].

(** The events [new] of a request whose configuration has [_retry] set,
    and how it settles: no refresh, no re-issue, and a 401 ends it. *)
Definition retried_run (o : Outcome) (new : list Event) : Prop :=
  count is_refresh new = O /\
  count is_reissue new = O /\
  count is_authFailure new = O /\
  (count is_401 new <= 1)%nat /\
  (count is_401 new = 1%nat ->
   exists e, o = Rejected (Some e) /\ status e = Some 401).

(** The events [new] of a request whose configuration has [_retry] not
    set, and how it settles. *)
Definition fresh_run (o : Outcome) (new : list Event) : Prop :=
  (count is_401 new = O ->
   count is_refresh new = O /\ count is_reissue new = O /\
   count is_authFailure new = O) /\
  ((1 <= count is_401 new)%nat ->
   count is_refresh new = 1%nat /\
   ((count is_reissue new = 1%nat /\ count is_authFailure new = O) \/
    (count is_reissue new = O /\ count is_authFailure new = 1%nat /\
     count is_401 new = 1%nat /\ exists e, o = Rejected (Some e)))) /\
  (count is_401 new <= 2)%nat /\
  (count is_401 new = 2%nat ->
   exists e, o = Rejected (Some e) /\ status e = Some 401).

(** A sequence of [updateMetrics] calls. *)
Definition updates (calls : list (bool * Z)) (m : Metrics) : Metrics :=
  fold_left (fun m c => updateMetrics (fst c) (snd c) m) calls m.

(** * Properties *)

(** ** The breaker *)

Lemma lookup_with_breaker self f w k :
  circuitBreakers (with_breaker self f w) !! k =
  if decide (self = k) then f <$> circuitBreakers w !! self
  else circuitBreakers w !! k.
Proof. unfold with_breaker; simpl. apply lookup_alter. Qed.

Lemma lookup_with_breaker_eq self f w :
  circuitBreakers (with_breaker self f w) !! self = f <$> circuitBreakers w !! self.
Proof. rewrite lookup_with_breaker. by rewrite decide_True. Qed.

Lemma execute_open self operation w cb :
  circuitBreakers w !! self = Some cb ->
  state cb = OPEN ->
  execute self operation w = Some (Rejected (Some circuitOpenError), w).
Proof.
  intros Hcb Hst. unfold execute. rewrite Hcb.
  by rewrite bool_decide_eq_true_2.
Qed.

Lemma execute_through self operation w cb :
  circuitBreakers w !! self = Some cb ->
  state cb <> OPEN ->
  execute self operation w =
  match operation w with
  | None => None
  | Some (Resolved v, w') => Some (Resolved v, with_breaker self onSuccess w')
  | Some (Rejected e, w') =>
      Some (Rejected e, with_breaker self (onFailure (now w')) w')
  end.
Proof.
  intros Hcb Hst. unfold execute. rewrite Hcb.
  by rewrite bool_decide_eq_false_2.
Qed.

Lemma step_transition self s w cb :
  circuitBreakers w !! self = Some cb ->
  exists w', step self s w = Some w' /\
             circuitBreakers w' !! self = Some (transition s cb).
Proof.
  intros Hcb. destruct s as [o t | t]; simpl.
  - destruct (decide (state cb = OPEN)) as [Hst | Hst].
    + rewrite (execute_open _ _ _ _ Hcb Hst). exists w. split; [done |].
      destruct o; by rewrite bool_decide_eq_true_2.
    + rewrite (execute_through _ _ _ _ Hcb Hst). unfold settles.
      destruct o; eexists; (split; [reflexivity |]);
        rewrite lookup_with_breaker_eq; simpl; rewrite Hcb; simpl;
        by rewrite bool_decide_eq_false_2.
  - eexists; split; [reflexivity |]. unfold timer_fires.
    rewrite lookup_with_breaker_eq. simpl. by rewrite Hcb.
Qed.

Lemma run_transitions self steps : forall w cb,
  circuitBreakers w !! self = Some cb ->
  exists w', run self steps w = Some w' /\
             circuitBreakers w' !! self = Some (transitions steps cb).
Proof.
  induction steps as [| s steps IH]; intros w cb Hcb; simpl.
  - by exists w.
  - destruct (step_transition self s w cb Hcb) as (w1 & Hs & Hcb1).
    rewrite Hs. by apply IH.
Qed.

(** The configuration of a breaker never changes. *)
Lemma transition_threshold s cb : threshold (transition s cb) = threshold cb.
Proof.
  destruct s as [[v | e] t | t]; simpl; unfold onFailure, monitor;
    repeat case_match; reflexivity.
Qed.

Lemma transition_timeout s cb : timeout (transition s cb) = timeout cb.
Proof.
  destruct s as [[v | e] t | t]; simpl; unfold onFailure, monitor;
    repeat case_match; reflexivity.
Qed.

Lemma tripped_new th tmo period t : tripped (new_CircuitBreaker th tmo period t).
Proof. intros H. by destruct H. Qed.

Lemma tripped_transition s cb : tripped cb -> tripped (transition s cb).
Proof.
  unfold tripped. intros Hinv.
  destruct s as [[v | e] t | t]; simpl; unfold onSuccess, onFailure, monitor;
    repeat case_match; simpl; intros Hne;
    repeat match goal with
           | H : bool_decide _ = true |- _ => apply bool_decide_eq_true_1 in H
           | H : bool_decide _ = false |- _ => apply bool_decide_eq_false_1 in H
           | H : (_ && _) = true |- _ => apply andb_prop in H; destruct H
           end;
    try congruence; try lia; try (apply Hinv; congruence);
    try (destruct (state cb); congruence);
    try (assert (threshold cb <= failureCount cb) by (apply Hinv; congruence); lia).
Qed.

Lemma tripped_transitions steps : forall cb,
  tripped cb -> tripped (transitions steps cb).
Proof.
  induction steps as [| s steps IH]; intros cb H; simpl; [done |].
  apply IH. by apply tripped_transition.
Qed.

Lemma transitions_threshold steps : forall cb,
  threshold (transitions steps cb) = threshold cb.
Proof.
  induction steps as [| s steps IH]; intros cb; simpl; [done |].
  by rewrite IH, transition_threshold.
Qed.

Lemma transitions_timeout steps : forall cb,
  timeout (transitions steps cb) = timeout cb.
Proof.
  induction steps as [| s steps IH]; intros cb; simpl; [done |].
  by rewrite IH, transition_timeout.
Qed.

(** Failures that do not reach the threshold leave a CLOSED breaker
    CLOSED and are counted one by one. *)
Lemma failures_below_threshold fs : forall cb,
  state cb = CLOSED ->
  failureCount cb + Z.of_nat (length fs) < threshold cb ->
  state (transitions (failures fs) cb) = CLOSED /\
  failureCount (transitions (failures fs) cb) = failureCount cb + Z.of_nat (length fs) /\
  threshold (transitions (failures fs) cb) = threshold cb.
Proof.
  induction fs as [| [e t] fs IH]; intros cb Hst Hlt.
  - simpl in *. repeat split; [done | lia].
  - change (length ((e, t) :: fs)) with (S (length fs)) in *.
    rewrite Nat2Z.inj_succ in *.
    change (transitions (failures ((e, t) :: fs)) cb)
      with (transitions (failures fs) (transition (Calls (Rejected e) t) cb)).
    simpl transition. rewrite Hst. simpl.
    assert (Hstep : state (onFailure t cb) = CLOSED /\
                    failureCount (onFailure t cb) = failureCount cb + 1 /\
                    threshold (onFailure t cb) = threshold cb).
    { unfold onFailure.
      destruct (Z.leb_spec (threshold cb) (failureCount cb + 1)); simpl;
        [lia | done]. }
    destruct Hstep as (H1 & H2 & H3).
    destruct (IH (onFailure t cb) H1) as (H4 & H5 & H6); [lia |].
    repeat split; [done | lia | congruence].
Qed.

Lemma transitions_app steps1 steps2 cb :
  transitions (steps1 ++ steps2) cb = transitions steps2 (transitions steps1 cb).
Proof. unfold transitions. apply fold_left_app. Qed.

Lemma failures_app fs1 fs2 : failures (fs1 ++ fs2) = failures fs1 ++ failures fs2.
Proof. unfold failures. apply map_app. Qed.

Lemma run_lookup self steps w w' cb :
  circuitBreakers w !! self = Some cb ->
  run self steps w = Some w' ->
  circuitBreakers w' !! self = Some (transitions steps cb).
Proof.
  intros Hcb Hrun.
  destruct (run_transitions self steps w cb Hcb) as (w1 & Hrun1 & Hcb1).
  congruence.
Qed.

(** The errors that one attempt of the executor throws and the errors of
    a token refresh are never the error of an open circuit. *)
Lemma attempt_body_error config o w e w' :
  attempt_body config o w = (inl e, w') -> e <> circuitOpenError.
Proof.
  unfold attempt_body. intros H Heq. subst e.
  destruct o as [r | [|] msg]; repeat case_match; simplify_eq.
Qed.

Lemma refreshToken_error env w e w' :
  refreshToken env w = (inl e, w') -> e <> circuitOpenError.
Proof.
  unfold refreshToken. intros H Heq. subst e.
  repeat case_match; simplify_eq.
  match goal with H : fetch_error ?k _ = _ |- _ => by destruct k end.
Qed.

(** C1.  A CLOSED breaker whose count is 0 stays CLOSED through fewer
    consecutive failures than [threshold]; after exactly [threshold] of
    them it is OPEN, and then [execute] rejects with the circuit-open
    error whatever the operation is, leaving the world as it was: the
    operation is not run.  That error is none of the errors that an
    attempt of the executor throws. *)
Theorem breaker_opens_at_threshold self w cb fs :
  circuitBreakers w !! self = Some cb ->
  state cb = CLOSED ->
  failureCount cb = 0 ->
  1 <= threshold cb ->
  Z.of_nat (length fs) = threshold cb ->
  (forall n, (n < length fs)%nat ->
     exists wn cbn, run self (failures (take n fs)) w = Some wn /\
                    circuitBreakers wn !! self = Some cbn /\
                    state cbn = CLOSED) /\
  (exists w' cb',
     run self (failures fs) w = Some w' /\
     circuitBreakers w' !! self = Some cb' /\
     state cb' = OPEN /\
     forall operation,
       execute self operation w' = Some (Rejected (Some circuitOpenError), w')) /\
  (forall config o w0 e w1,
     attempt_body config o w0 = (inl e, w1) -> e <> circuitOpenError).
Proof.
  intros Hcb Hst Hcount Hth Hlen. split; [| split].
  - intros n Hn.
    destruct (run_transitions self (failures (take n fs)) w cb Hcb)
      as (wn & Hrun & Hcbn).
    exists wn, (transitions (failures (take n fs)) cb).
    repeat split; [done | done |].
    apply failures_below_threshold; [done |].
    rewrite length_take. lia.
  - destruct (run_transitions self (failures fs) w cb Hcb) as (w' & Hrun & Hcb').
    exists w', (transitions (failures fs) cb).
    assert (Hopen : state (transitions (failures fs) cb) = OPEN).
    { destruct fs as [| f0 fs0] using rev_ind; [simpl in Hlen; lia |].
      clear IHfs0. rewrite length_app in Hlen. simpl in Hlen.
      rewrite failures_app, transitions_app.
      destruct (failures_below_threshold fs0 cb Hst) as (H1 & H2 & H3); [lia |].
      simpl. rewrite H1. simpl. unfold onFailure.
      destruct (Z.leb_spec (threshold (transitions (failures fs0) cb))
                           (failureCount (transitions (failures fs0) cb) + 1));
        [done | lia]. }
    repeat split; [done | done | done |].
    intros operation. by apply execute_open with (cb := transitions (failures fs) cb).
  - intros config o w0 e w1. apply attempt_body_error.
Qed.

Lemma breaker_opens_at_threshold_witness :
  exists w' cb',
    run "products" (failures [(None, 1); (None, 2); (None, 3); (None, 4); (None, 5)])
        (new_APIClient 0 None) = Some w' /\
    circuitBreakers w' !! "products" = Some cb' /\
    state cb' = OPEN /\
    forall operation,
      execute "products" operation w' = Some (Rejected (Some circuitOpenError), w').
Proof.
  apply (breaker_opens_at_threshold "products" (new_APIClient 0 None)
           (new_CircuitBreaker 5 60000 10000 0)
           [(None, 1); (None, 2); (None, 3); (None, 4); (None, 5)]);
    [vm_compute; reflexivity | reflexivity | reflexivity | simpl; lia | reflexivity].
Defined.







(** The steps above are calls that run one after the other.  When a call
    that began while the breaker was CLOSED succeeds after other calls
    have opened it, [onSuccess] runs while OPEN and resets the count; the
    timer then makes the breaker HALF_OPEN with a count of 0, and a
    failed call leaves it HALF_OPEN: [onFailure] has no case of its own
    for HALF_OPEN. *)
Example overlapping_success_keeps_half_open :
  let opened :=
    transitions (failures [(None, 1); (None, 2); (None, 3); (None, 4); (None, 5)])
                (new_CircuitBreaker 5 60000 10000 0) in
  state opened = OPEN /\
  state (monitor 70000 (onSuccess opened)) = HALF_OPEN /\
  state (onFailure 70001 (monitor 70000 (onSuccess opened))) = HALF_OPEN.
Proof. vm_compute. repeat split; reflexivity. Qed.




(** ** Classification of errors and the retry delay *)

(** C6.  [shouldRetry] holds exactly for an [AbortError], a [TypeError],
    a status from 500 to 599 and the status 429; an [APIError] with any
    other 4xx status is not retried. *)
Theorem shouldRetry_iff error :
  (shouldRetry error = true <->
   name error = "AbortError" \/
   name error = "TypeError" \/
   (exists st, status error = Some st /\ 500 <= st < 600) \/
   status error = Some 429) /\
  (forall msg st, 400 <= st < 500 -> st <> 429 ->
     shouldRetry (APIError msg st) = false).
Proof.
  split.
  - unfold shouldRetry. rewrite !orb_true_iff, !String.eqb_eq.
    destruct (status error) as [st |].
    + rewrite andb_true_iff, Z.leb_le, Z.ltb_lt, Z.eqb_eq. split.
      * intros [[[H | H] | H] | H]; [eauto | eauto | | subst; eauto].
        right. right. left. eauto.
      * intros [H | [H | [(st' & Heq & H) | H]]]; simplify_eq; eauto.
    + split.
      * intros [[[H | H] | H] | H]; eauto; discriminate.
      * intros [H | [H | [(st' & Heq & H) | H]]]; simplify_eq; eauto.
  - intros msg st Hst Hne. unfold shouldRetry. simpl.
    destruct (Z.leb_spec 500 st); [lia |].
    destruct (Z.eqb_spec st 429); [lia | reflexivity].
Qed.

(** C8.  With a draw of [Math.random()] in [0, 1), the jitter is in
    [0, 1000), the delay is the smaller of the exponential delay plus the
    jitter and 30000, and so it lies between the exponential delay and
    the exponential delay plus 1000, both capped at 30000. *)
Theorem calculateRetryDelay_bounds rnd attempt baseDelay :
  (0 <= rnd)%Q -> (rnd < 1)%Q ->
  let jitter := (rnd * 1000)%Q in
  let exponentialDelay := (baseDelay * 2 ^ attempt)%Q in
  (0 <= jitter)%Q /\ (jitter < 1000)%Q /\
  calculateRetryDelay rnd attempt baseDelay = Qmin (exponentialDelay + jitter) 30000 /\
  (Qmin exponentialDelay 30000 <= calculateRetryDelay rnd attempt baseDelay)%Q /\
  (calculateRetryDelay rnd attempt baseDelay <= Qmin (exponentialDelay + 1000) 30000)%Q /\
  (calculateRetryDelay rnd attempt baseDelay <= 30000)%Q.
Proof.
  intros H0 H1 jitter exponentialDelay.
  assert (Hj0 : (0 <= jitter)%Q).
  { unfold jitter. apply Qmult_le_0_compat; [done | discriminate]. }
  assert (Hj1 : (jitter < 1000)%Q).
  { unfold jitter. apply (proj2 (Qmult_lt_r rnd 1 1000 eq_refl)). exact H1. }
  repeat split; try done.
  - unfold calculateRetryDelay. fold jitter exponentialDelay.
    apply Q.min_le_compat_r.
    apply Qle_trans with (exponentialDelay + 0)%Q;
      [rewrite Qplus_0_r; apply Qle_refl |].
    apply Qplus_le_compat; [apply Qle_refl | done].
  - unfold calculateRetryDelay. fold jitter exponentialDelay.
    apply Q.min_le_compat_r.
    apply Qplus_le_compat; [apply Qle_refl | by apply Qlt_le_weak].
  - unfold calculateRetryDelay. apply Q.le_min_r.
Qed.

Lemma calculateRetryDelay_bounds_witness :
  (Qmin (1000 * 2 ^ 2) 30000 <= calculateRetryDelay (1 # 2) 2 1000)%Q /\
  (calculateRetryDelay (1 # 2) 2 1000 <= Qmin (1000 * 2 ^ 2 + 1000) 30000)%Q.
Proof.
  split;
    apply (calculateRetryDelay_bounds (1 # 2) 2 1000); vm_compute; congruence.
Defined.

Example calculateRetryDelay_attempt_2 :
  (calculateRetryDelay (1 # 2) 2 1000 == 4500)%Q.
Proof. reflexivity. Qed.

Example calculateRetryDelay_capped :
  calculateRetryDelay (1 # 2) 5 1000 = 30000%Q.
Proof. vm_compute. reflexivity. Qed.

(** ** The rolling window of durations *)

Lemma updateMetrics_length success duration m :
  (length (requestTimes m) <= 100)%nat ->
  (length (requestTimes (updateMetrics success duration m)) <= 100)%nat.
Proof.
  intros H. unfold updateMetrics. simpl.
  destruct (Nat.ltb_spec 100 (length (requestTimes m ++ [duration]))) as [Hlt | Hge].
  - destruct (requestTimes m) as [| d0 l]; simpl in *; [lia |].
    rewrite length_app in *. simpl in *. lia.
  - exact Hge.
Qed.

Lemma updates_length calls : forall m,
  (length (requestTimes m) <= 100)%nat ->
  (length (requestTimes (updates calls m)) <= 100)%nat.
Proof.
  induction calls as [| c calls IH]; intros m H; simpl; [done |].
  apply IH. by apply updateMetrics_length.
Qed.

(** C9.  After any sequence of [updateMetrics] calls on the metrics of a
    new client the window holds at most 100 durations; a further call
    appends its duration, and when the window already held 100 it drops
    the oldest one. *)
Theorem requestTimes_window calls success duration :
  let m := updates calls new_Metrics in
  (length (requestTimes m) <= 100)%nat /\
  (length (requestTimes (updateMetrics success duration m)) <= 100)%nat /\
  ((length (requestTimes m) < 100)%nat ->
     requestTimes (updateMetrics success duration m) = requestTimes m ++ [duration]) /\
  (length (requestTimes m) = 100%nat ->
     requestTimes (updateMetrics success duration m) =
     tail (requestTimes m) ++ [duration]).
Proof.
  intros m.
  assert (Hm : (length (requestTimes m) <= 100)%nat).
  { apply updates_length. simpl. lia. }
  split; [done |]. split; [by apply updateMetrics_length |].
  unfold updateMetrics. simpl. split; intros Hlen.
  - destruct (Nat.ltb_spec 100 (length (requestTimes m ++ [duration]))) as [Hlt | Hge];
      [| done].
    rewrite length_app in Hlt. simpl in Hlt. lia.
  - destruct (Nat.ltb_spec 100 (length (requestTimes m ++ [duration]))) as [Hlt | Hge].
    + destruct (requestTimes m); [simpl in Hlen; lia | reflexivity].
    + rewrite length_app in Hge. simpl in Hge. lia.
Qed.

Example requestTimes_101 :
  requestTimes (updates (map (fun d => (true, Z.of_nat d)) (seq 1 101)) new_Metrics)
  = map Z.of_nat (seq 2 100).
Proof. vm_compute. reflexivity. Qed.

(** ** The retry loop *)

Lemma count_app p l1 l2 : count p (l1 ++ l2) = (count p l1 + count p l2)%nat.
Proof. unfold count. by rewrite filter_app, length_app. Qed.

Lemma count_nil p : count p [] = O.
Proof. reflexivity. Qed.

Lemma count_one p e : count p [e] = if p e then 1%nat else O.
Proof.
  unfold count. rewrite filter_cons, filter_nil.
  destruct (p e); by case_decide.
Qed.

Section Loop.

Variable env : Env.
Variable reissue : Config -> Operation.


End Loop.







(** A 503 twice and then a 200, with [retries] 2: the caller gets the
    body of the 200 after three attempts and two sleeps. *)
Example three_attempts_then_success :
  match executeRequest
          (scripted [Responds (response 503); Responds (response 503)])
          (fun _ _ => None)
          (mkConfig "/api/products" (Some 2) (Some 1000%Q) false 0 None)
          (new_APIClient 0 None) with
  | Some (Resolved v, w') =>
      count is_attempt (log w') = 3%nat /\ count is_sleep (log w') = 2%nat
  | _ => False
  end.
Proof. vm_compute. split; reflexivity. Qed.

(** A 404: one attempt, no sleep. *)
Example not_found_is_not_retried :
  match executeRequest (always 404) (fun _ _ => None) (get "/api/products/9")
                       (new_APIClient 0 None) with
  | Some (Rejected (Some e), w') =>
      status e = Some 404 /\ name e = "APIError" /\
      count is_attempt (log w') = 1%nat /\ count is_sleep (log w') = O /\
      now w' = 10
  | _ => False
  end.
Proof. vm_compute. repeat split; reflexivity. Qed.

(** ** One iteration of the loop, case by case *)

Lemma count_cons p e l :
  count p (e :: l) = ((if p e then 1 else 0) + count p l)%nat.
Proof. change (e :: l) with ([e] ++ l). by rewrite count_app, count_one. Qed.

(** What the [try] block throws: never the circuit-open error; an error
    of status 401 exactly when the response had status 401, and such an
    error is not retryable. *)
Lemma attempt_body_throws config u o w error w' :
  attempt_body config o w = (inl error, w') ->
  w' = w /\ error <> circuitOpenError /\
  (is_401 (EvAttempt u o) = true -> status error = Some 401 /\ shouldRetry error = false) /\
  (is_401 (EvAttempt u o) = false -> status error <> Some 401).
Proof.
  intros H. split; [| split; [by eapply attempt_body_error |]].
  - unfold attempt_body in H. repeat case_match; by simplify_eq.
  - unfold attempt_body in H. simpl.
    destruct o as [r | kind msg].
    + destruct (negb (ok r)) eqn:Hok.
      * injection H as <- <-. simpl. split.
        -- intros H401. apply Z.eqb_eq in H401. rewrite H401. done.
        -- intros H401. apply Z.eqb_neq in H401. congruence.
      * destruct (r_body r); simplify_eq. simpl. split; [| done].
        intros H401. apply Z.eqb_eq in H401. apply negb_false_iff in Hok.
        unfold ok in Hok. rewrite H401 in Hok. discriminate.
    + injection H as <- <-. split; [discriminate |].
      by destruct kind.
Qed.

(** What the [try] block does when it returns: the response was not a
    401, and only the metrics changed. *)
Lemma attempt_body_returns config u o w v w' :
  attempt_body config o w = (inr v, w') ->
  is_401 (EvAttempt u o) = false /\
  log w' = log w /\ circuitBreakers w' = circuitBreakers w.
Proof.
  unfold attempt_body. intros H. destruct o as [r | kind msg]; [| done].
  destruct (negb (ok r)) eqn:Hok; [done |].
  destruct (r_body r); simplify_eq. simpl. repeat split.
  apply negb_false_iff in Hok. unfold ok in Hok.
  apply andb_prop in Hok as [H1 H2]. apply Z.leb_le in H1, H2.
  apply Z.eqb_neq. lia.
Qed.

Lemma refreshToken_effect env w res w' :
  refreshToken env w = (res, w') ->
  circuitBreakers w' = circuitBreakers w /\
  exists evs, refresh_events evs /\ log w' = log w ++ evs.
Proof.
  unfold refreshToken, refresh_events, fetch. intros H.
  repeat case_match; simplify_eq; simpl; (split; [reflexivity |]);
    first [ by (exists [EvRefresh]; split; [by left | done])
          | eexists; split; [right; eexists; reflexivity |];
            by rewrite <- app_assoc ].
Qed.

Section Iteration.

Variable env : Env.
Variable reissue : Config -> Operation.

(** The error interceptor, case by case. *)
Lemma errorInterceptor_cases error config w :
  (~ (status error = Some 401 /\ _retry config = false) /\
   errorInterceptor env reissue error config w =
   Some (Rejected (Some error), config, w))
  \/
  (status error = Some 401 /\ _retry config = false /\
   exists w1 evs,
     refresh_events evs /\ log w1 = log w ++ evs /\
     circuitBreakers w1 = circuitBreakers w /\
     ((exists refreshError,
         refreshError <> circuitOpenError /\
         errorInterceptor env reissue error config w =
         Some (Rejected (Some refreshError), config,
               handleAuthenticationFailure w1))
      \/
      errorInterceptor env reissue error config w =
      match reissue (set__retry true config)
                    (emit (EvReissue (url config)) w1) with
      | Some (o, w2) => Some (o, set__retry true config, w2)
      | None => None
      end)).
Proof.
  unfold errorInterceptor.
  destruct (bool_decide (status error = Some 401) && negb (_retry config)) eqn:E.
  - right. apply andb_prop in E as [E1 E2].
    apply bool_decide_eq_true_1 in E1. apply negb_true_iff in E2.
    split; [done |]. split; [done |].
    destruct (refreshToken env w) as [[refreshError | tok] w1] eqn:Href;
      destruct (refreshToken_effect _ _ _ _ Href) as (Hcb & evs & Hevs & Hlog);
      exists w1, evs; (split; [done |]); (split; [done |]); (split; [done |]).
    + left. exists refreshError. split; [by eapply refreshToken_error | done].
    + right. reflexivity.
  - left. split; [| done]. intros [H1 H2].
    rewrite bool_decide_eq_true_2, H2 in E by done. discriminate.
Qed.

(** One iteration of the loop, with the calls of [fetch] and
    [Math.random()] written out. *)
Lemma attempts_S rts delay n attempt config lastError w :
  attempts env reissue rts delay (S n) attempt config lastError w =
  let o := network env (fetches w) in
  let w0 :=
    emit (EvAttempt (url config) o)
      (set_now (now w + elapsed env (fetches w))
         (set_fetches (S (fetches w))
            (set_metrics (count_request (metrics w)) w))) in
  match attempt_body config o w0 with
  | (inr processedResponse, w1) => Some (Resolved processedResponse, w1)
  | (inl error, w1) =>
      match errorInterceptor env reissue error config (responseError config w1) with
      | None => None
      | Some (Resolved v, _, w3) => Some (Resolved v, w3)
      | Some (Rejected lastError', config', w3) =>
          if (attempt <? rts) && shouldRetry error
          then attempts env reissue rts delay n (attempt + 1) config' lastError'
                 (sleep (calculateRetryDelay (random env (draws w3)) attempt delay)
                        (set_draws (S (draws w3)) w3))
          else Some (Rejected lastError', w3)
      end
  end.
Proof. reflexivity. Qed.

(** The world in which the interceptors of an attempt run. *)
Lemma attempts_cases rts delay n attempt config lastError w :
  exists o w1,
    log w1 = log w ++ [EvAttempt (url config) o] /\
    circuitBreakers w1 = circuitBreakers w /\
    ((exists v,
        is_401 (EvAttempt (url config) o) = false /\
        attempts env reissue rts delay (S n) attempt config lastError w =
        Some (Resolved v, w1))
     \/
     (exists error,
        error <> circuitOpenError /\
        (is_401 (EvAttempt (url config) o) = true ->
         status error = Some 401 /\ shouldRetry error = false) /\
        (is_401 (EvAttempt (url config) o) = false -> status error <> Some 401) /\
        attempts env reissue rts delay (S n) attempt config lastError w =
        match errorInterceptor env reissue error config w1 with
        | None => None
        | Some (Resolved v, _, w3) => Some (Resolved v, w3)
        | Some (Rejected lastError', config', w3) =>
            if (attempt <? rts) && shouldRetry error
            then attempts env reissue rts delay n (attempt + 1) config' lastError'
                   (sleep (calculateRetryDelay (random env (draws w3)) attempt delay)
                          (set_draws (S (draws w3)) w3))
            else Some (Rejected lastError', w3)
        end)).
Proof.
  rewrite attempts_S. cbv zeta.
  set (o := network env (fetches w)).
  set (w0 := emit (EvAttempt (url config) o) _).
  destruct (attempt_body config o w0) as [[error | v] w1] eqn:Hbody.
  - destruct (attempt_body_throws config (url config) o w0 error w1 Hbody)
      as (-> & Hne & H401 & Hnot).
    exists o, (responseError config w0). split; [reflexivity |].
    split; [reflexivity |]. right. exists error.
    split; [done |]. split; [done |]. split; [done |]. reflexivity.
  - destruct (attempt_body_returns config (url config) o w0 v w1 Hbody)
      as (H401 & Hlog & Hcb).
    exists o, w1. split; [by rewrite Hlog |]. split; [by rewrite Hcb |].
    left. exists v. done.
Qed.

End Iteration.

(** ** Token refresh *)

Ltac count_simpl :=
  rewrite ?count_app, ?count_cons, ?count_nil; cbn [is_refresh is_reissue
    is_authFailure is_attempt is_sleep Nat.add].

Lemma refresh_events_counts evs :
  refresh_events evs ->
  count is_refresh evs = 1%nat /\ count is_reissue evs = O /\
  count is_authFailure evs = O /\ count is_401 evs = O /\
  count is_attempt evs = O /\ count is_sleep evs = O.
Proof. intros [-> | [o ->]]; repeat split; reflexivity. Qed.

Section Refresh.

Variable env : Env.

(** A configuration with [_retry] set: the loop never refreshes and
    never re-issues, whatever [reissue] is. *)
Lemma attempts_retried reissue rts delay config :
  _retry config = true ->
  forall n attempt lastError w,
  exists o w' new,
    attempts env reissue rts delay n attempt config lastError w = Some (o, w') /\
    log w' = log w ++ new /\ retried_run o new.
Proof.
  intros Hretry. induction n as [| n IH]; intros attempt lastError w.
  - exists (Rejected lastError), w, []. split; [reflexivity |].
    split; [by rewrite app_nil_r |]. unfold retried_run. count_simpl.
    repeat split; try lia.
  - destruct (attempts_cases env reissue rts delay n attempt config lastError w)
      as (o & w1 & Hlog & _ & [(v & H401 & Heq) | (error & _ & H401 & Hnot & Heq)]).
    + exists (Resolved v), w1, [EvAttempt (url config) o].
      split; [done |]. split; [done |]. unfold retried_run. count_simpl.
      rewrite H401. repeat split; try lia.
    + destruct (errorInterceptor_cases env reissue error config w1)
        as [[_ Hint] | (_ & Hfalse & _)]; [| congruence].
      rewrite Hint in Heq.
      destruct ((attempt <? rts) && shouldRetry error) eqn:E.
      * match type of Heq with
        | _ = attempts _ _ _ _ _ _ _ _ ?w2 =>
            destruct (IH (attempt + 1) (Some error) w2)
              as (o' & w' & new & Hrun & Hlog' & Hnew)
        end.
        exists o', w', ([EvAttempt (url config) o] ++ [EvSleep
          (calculateRetryDelay (random env (draws w1)) attempt delay)] ++ new).
        split; [by rewrite Heq |]. split.
        { rewrite Hlog'. unfold sleep. simpl. rewrite Hlog.
          by rewrite <- !app_assoc. }
        assert (Hno : is_401 (EvAttempt (url config) o) = false).
        { destruct (is_401 (EvAttempt (url config) o)) eqn:H; [| done].
          destruct (H401 eq_refl) as [_ Hsr]. rewrite Hsr, andb_false_r in E.
          discriminate. }
        destruct Hnew as (H1 & H2 & H3 & H4 & H5).
        unfold retried_run. rewrite !count_app, !count_one.
        cbn [is_refresh is_reissue is_authFailure]. rewrite Hno.
        change (is_401 (EvSleep _)) with false. cbn [Nat.add].
        repeat split; done.
      * exists (Rejected (Some error)), w1, [EvAttempt (url config) o].
        split; [by rewrite Heq |]. split; [done |].
        unfold retried_run. rewrite !count_one.
        cbn [is_refresh is_reissue is_authFailure].
        destruct (is_401 (EvAttempt (url config) o)) eqn:H.
        -- repeat split; try lia. intros _. exists error.
           split; [done |]. by apply H401.
        -- repeat split; try lia.
Qed.

(** [execute] settles as its operation does, or rejects without running
    it; either way it adds no event. *)
Lemma execute_settles self operation w cb o w' :
  circuitBreakers w !! self = Some cb ->
  operation w = Some (o, w') ->
  exists o2 w2,
    execute self operation w = Some (o2, w2) /\
    ((o2 = o /\ log w2 = log w') \/
     (o2 = Rejected (Some circuitOpenError) /\ w2 = w)).
Proof.
  intros Hcb Hop. unfold execute. rewrite Hcb.
  case_bool_decide.
  - eexists _, _. split; [reflexivity |]. by right.
  - rewrite Hop. destruct o; eexists _, _; (split; [reflexivity |]); by left.
Qed.

Lemma retried_run_rejected e : retried_run (Rejected e) [].
Proof. unfold retried_run. count_simpl. repeat split; try lia. Qed.

Lemma request_retried fuel config w :
  _retry config = true ->
  exists o w' new,
    request env (S fuel) config w = Some (o, w') /\
    log w' = log w ++ new /\ retried_run o new.
Proof.
  intros Hretry. cbn [request]. unfold requestInterceptor, Math_random.
  set (config1 := mkConfig _ _ _ _ _ _).
  set (w1 := set_draws _ w).
  assert (Hretry1 : _retry config1 = true) by done.
  destruct (attempts_retried (request env fuel)
              (default maxRetries (retries config1))
              (default this_retryDelay (retryDelay config1)) config1 Hretry1
              (Z.to_nat (default maxRetries (retries config1) + 1)) 0 None w1)
    as (o & w' & new & Hrun & Hlog & Hnew).
  fold (executeRequest env (request env fuel) config1 w1) in Hrun.
  destruct (circuitBreakers w1 !! getServiceFromUrl (url config1)) as [cb |] eqn:Hcb.
  - destruct (execute_settles _ _ _ _ _ _ Hcb Hrun)
      as (o2 & w2 & Hex & [[-> Hlog2] | [-> ->]]).
    + exists o, w2, new. split; [done |]. split; [| done].
      by rewrite Hlog2, Hlog.
    + exists (Rejected (Some circuitOpenError)), w1, []. split; [done |].
      split; [by rewrite app_nil_r | apply retried_run_rejected].
  - exists o, w', new. done.
Qed.

End Refresh.

Section FirstRequest.

Variable env : Env.
Variable reissue : Config -> Operation.

Hypothesis reissue_retried : forall config w,
  _retry config = true ->
  exists o w' new,
    reissue config w = Some (o, w') /\
    log w' = log w ++ new /\ retried_run o new.

(** A configuration with [_retry] not set: the loop refreshes the token
    once, at the first 401, and then ends. *)
Lemma attempts_fresh rts delay config :
  _retry config = false ->
  forall n attempt lastError w,
  exists o w' new,
    attempts env reissue rts delay n attempt config lastError w = Some (o, w') /\
    log w' = log w ++ new /\ fresh_run o new.
Proof.
  intros Hretry. induction n as [| n IH]; intros attempt lastError w.
  - exists (Rejected lastError), w, []. split; [reflexivity |].
    split; [by rewrite app_nil_r |]. unfold fresh_run. count_simpl.
    repeat split; try lia.
  - destruct (attempts_cases env reissue rts delay n attempt config lastError w)
      as (o & w1 & Hlog & _ & [(v & H401 & Heq) | (error & _ & H401 & Hnot & Heq)]).
    + exists (Resolved v), w1, [EvAttempt (url config) o].
      split; [done |]. split; [done |]. unfold fresh_run.
      rewrite !count_one. cbn [is_refresh is_reissue is_authFailure].
      rewrite H401. repeat split; try lia.
    + destruct (errorInterceptor_cases env reissue error config w1)
        as [[Hno Hint] | (Hst & _ & w2 & evs & Hevs & Hlog2 & _ & Hint)].
      * assert (Hnot401 : is_401 (EvAttempt (url config) o) = false).
        { destruct (is_401 (EvAttempt (url config) o)) eqn:H; [| done].
          destruct (H401 eq_refl) as [Hst _]. by destruct Hno. }
        rewrite Hint in Heq.
        destruct ((attempt <? rts) && shouldRetry error) eqn:E.
        -- match type of Heq with
           | _ = attempts _ _ _ _ _ _ _ _ ?w3 =>
               destruct (IH (attempt + 1) (Some error) w3)
                 as (o' & w' & new & Hrun & Hlog' & Hnew)
           end.
           exists o', w', ([EvAttempt (url config) o] ++ [EvSleep
             (calculateRetryDelay (random env (draws w1)) attempt delay)] ++ new).
           split; [by rewrite Heq |]. split.
           { rewrite Hlog'. unfold sleep. simpl. rewrite Hlog.
             by rewrite <- !app_assoc. }
           unfold fresh_run in *. rewrite !count_app, !count_one.
           cbn [is_refresh is_reissue is_authFailure]. rewrite Hnot401.
           change (is_401 (EvSleep _)) with false. cbn [Nat.add]. exact Hnew.
        -- exists (Rejected (Some error)), w1, [EvAttempt (url config) o].
           split; [by rewrite Heq |]. split; [done |].
           unfold fresh_run. rewrite !count_one.
           cbn [is_refresh is_reissue is_authFailure]. rewrite Hnot401.
           repeat split; try lia.
      * assert (Hyes : is_401 (EvAttempt (url config) o) = true).
        { destruct (is_401 (EvAttempt (url config) o)) eqn:H; [done |].
          by destruct (Hnot eq_refl). }
        destruct (H401 Hyes) as [_ Hsr].
        destruct (refresh_events_counts evs Hevs) as (C1 & C2 & C3 & C4 & _).
        destruct Hint as [(refreshError & _ & Hint) | Hint].
        -- rewrite Hint, Hsr, andb_false_r in Heq.
           exists (Rejected (Some refreshError)), (handleAuthenticationFailure w2),
             ([EvAttempt (url config) o] ++ evs ++ [EvAuthFailure]).
           split; [done |]. split.
           { unfold handleAuthenticationFailure. simpl. rewrite Hlog2, Hlog.
             by rewrite <- !app_assoc. }
           unfold fresh_run. rewrite !count_app, !count_one, C1, C2, C3, C4.
           rewrite Hyes. cbn [is_refresh is_reissue is_authFailure is_401].
           cbn [Nat.add]. split; [lia |]. split; [| split; [lia | lia]].
           intros _. split; [reflexivity |]. right. repeat split. eauto.
        -- assert (Hr : _retry (set__retry true config) = true) by done.
           destruct (reissue_retried (set__retry true config)
                       (emit (EvReissue (url config)) w2) Hr)
             as (o' & w' & new & Hrun & Hlog' & H1 & H2 & H3 & H4 & H5).
           rewrite Hrun in Hint. rewrite Hint in Heq.
           exists o', w',
             ([EvAttempt (url config) o] ++ evs ++ [EvReissue (url config)] ++ new).
           split.
           { rewrite Heq. destruct o'; [done |].
             by rewrite Hsr, andb_false_r. }
           split.
           { rewrite Hlog'. simpl. rewrite Hlog2, Hlog. by rewrite <- !app_assoc. }
           unfold fresh_run. rewrite !count_app, !count_one, C1, C2, C3, C4, H1, H2, H3.
           rewrite Hyes. cbn [is_refresh is_reissue is_authFailure is_401].
           cbn [Nat.add]. split; [lia |]. split; [| split; [lia |]].
           ++ intros _. split; [reflexivity |]. left. done.
           ++ intros H. apply H5. lia.
Qed.

End FirstRequest.

Lemma fresh_run_rejected e : fresh_run (Rejected e) [].
Proof. unfold fresh_run. count_simpl. repeat split; try lia. Qed.

Lemma request_fresh env fuel config w :
  _retry config = false ->
  exists o w' new,
    request env (S (S fuel)) config w = Some (o, w') /\
    log w' = log w ++ new /\ fresh_run o new.
Proof.
  intros Hretry. cbn [request]. unfold requestInterceptor, Math_random.
  set (config1 := mkConfig _ _ _ _ _ _).
  set (w1 := set_draws _ w).
  assert (Hretry1 : _retry config1 = false) by done.
  destruct (attempts_fresh env (request env (S fuel))
              (fun c w0 H => request_retried env fuel c w0 H)
              (default maxRetries (retries config1))
              (default this_retryDelay (retryDelay config1)) config1 Hretry1
              (Z.to_nat (default maxRetries (retries config1) + 1)) 0 None w1)
    as (o & w' & new & Hrun & Hlog & Hnew).
  fold (executeRequest env (request env (S fuel)) config1 w1) in Hrun.
  destruct (circuitBreakers w1 !! getServiceFromUrl (url config1)) as [cb |] eqn:Hcb.
  - destruct (execute_settles _ _ _ _ _ _ Hcb Hrun)
      as (o2 & w2 & Hex & [[-> Hlog2] | [-> ->]]).
    + exists o, w2, new. split; [done |]. split; [| done].
      by rewrite Hlog2, Hlog.
    + exists (Rejected (Some circuitOpenError)), w1, []. split; [done |].
      split; [by rewrite app_nil_r | apply fresh_run_rejected].
  - exists o, w', new. done.
Qed.



(** The run of the witness: 401, refresh, re-issue, 401 again. *)
Example second_401_propagates :
  match request (scripted [Responds (response 401);
                           Responds (refreshed "t2");
                           Responds (response 401)])
                2 (get "/api/orders/7")
                (new_APIClient 0 (Some (mkUser (Some "t1") (Some "r1")))) with
  | Some (Rejected (Some e), w') =>
      status e = Some 401 /\
      count is_401 (log w') = 2%nat /\
      count is_refresh (log w') = 1%nat /\
      count is_reissue (log w') = 1%nat /\
      count is_attempt (log w') = 2%nat /\
      storedUser w' = Some (mkUser (Some "t2") (Some "r1"))
  | _ => False
  end.
Proof. vm_compute. repeat split; reflexivity. Qed.

(** In that run the re-issued request goes through the breaker of
    "orders" again, inside the first call of [execute]: the one logical
    request is counted as two failures. *)
Example reissue_counts_twice :
  match request (scripted [Responds (response 401);
                           Responds (refreshed "t2");
                           Responds (response 401)])
                2 (get "/api/orders/7")
                (new_APIClient 0 (Some (mkUser (Some "t1") (Some "r1")))) with
  | Some (_, w') =>
      failureCount <$> circuitBreakers w' !! "orders" = Some 2 /\
      failureCount <$> circuitBreakers w' !! "auth" = Some 0
  | None => False
  end.
Proof. vm_compute. split; reflexivity. Qed.


(** ** Requests for no known service *)

Lemma prefix_includes s sub : String.prefix sub s = true -> includes s sub = true.
Proof. intros H. destruct s; cbn [includes]; by rewrite H. Qed.

(** A string that contains [String c sub] contains [sub]. *)
Lemma includes_tail c sub : forall s,
  includes s (String c sub) = true -> includes s sub = true.
Proof.
  induction s as [| a s IH]; intros H.
  - simpl in H. discriminate.
  - cbn [includes] in H. apply orb_prop in H as [H | H].
    + cbn [String.prefix] in H. destruct (Ascii.ascii_dec c a); [| discriminate].
      cbn [includes]. rewrite (prefix_includes _ _ H). apply orb_true_r.
    + cbn [includes]. rewrite (IH H). apply orb_true_r.
Qed.

Lemma includes_api s sub :
  includes s sub = false -> includes s ("/api" +:+ sub) = false.
Proof.
  intros H. destruct (includes s ("/api" +:+ sub)) eqn:E; [| done].
  simpl in E. do 4 apply includes_tail in E. congruence.
Qed.

Lemma getServiceFromUrl_unknown u :
  includes u "/products" = false ->
  includes u "/auth" = false ->
  includes u "/orders" = false ->
  getServiceFromUrl u = "unknown".
Proof.
  intros H1 H2 H3. unfold getServiceFromUrl.
  pose proof (includes_api u "/products" H1) as A1.
  pose proof (includes_api u "/auth" H2) as A2.
  pose proof (includes_api u "/orders" H3) as A3.
  change ("/api" +:+ "/products") with "/api/products" in A1.
  change ("/api" +:+ "/auth") with "/api/auth" in A2.
  change ("/api" +:+ "/orders") with "/api/orders" in A3.
  rewrite H1, H2, H3, A1, A2, A3.
  reflexivity.
Qed.

Lemma new_APIClient_breakers t user k :
  circuitBreakers (new_APIClient t user) !! k =
  if bool_decide (k = "products" \/ k = "auth" \/ k = "orders")
  then Some (new_CircuitBreaker 5 60000 10000 t) else None.
Proof.
  unfold new_APIClient, initializeCircuitBreakers, services. simpl.
  rewrite !lookup_insert, lookup_empty.
  case_bool_decide as Hk.
  - destruct Hk as [-> | [-> | ->]]; reflexivity.
  - repeat case_decide; try reflexivity; subst; exfalso; apply Hk; auto.
Qed.

Section NoBreaker.

Variable env : Env.
Variable reissue : Config -> Operation.
Variable u : string.
Variable m : gmap string CircuitBreaker.

Hypothesis reissue_no_breaker : forall config w o w',
  url config = u -> circuitBreakers w = m ->
  reissue config w = Some (o, w') ->
  circuitBreakers w' = m /\ o <> Rejected (Some circuitOpenError).

(** The loop itself never touches a breaker and never throws the
    circuit-open error. *)
Lemma attempts_no_breaker rts delay :
  forall n attempt config lastError w o w',
    url config = u -> circuitBreakers w = m ->
    lastError <> Some circuitOpenError ->
    attempts env reissue rts delay n attempt config lastError w = Some (o, w') ->
    circuitBreakers w' = m /\ o <> Rejected (Some circuitOpenError).
Proof.
  induction n as [| n IH]; intros attempt config lastError w o w' Hu Hm Hlast Hrun.
  - simpl in Hrun. injection Hrun as <- <-. split; [done | congruence].
  - destruct (attempts_cases env reissue rts delay n attempt config lastError w)
      as (fo & w1 & _ & Hcb & [(v & _ & Heq) | (error & Hne & H401 & _ & Heq)]).
    + rewrite Heq in Hrun. injection Hrun as <- <-.
      split; [congruence | discriminate].
    + rewrite Heq in Hrun. clear Heq.
      destruct (errorInterceptor_cases env reissue error config w1)
        as [[_ Hint] | (_ & _ & w2 & evs & _ & _ & Hcb2 & Hint)].
      * rewrite Hint in Hrun.
        destruct ((attempt <? rts) && shouldRetry error).
        -- eapply IH in Hrun; [done | done | | congruence].
           unfold sleep. simpl. congruence.
        -- injection Hrun as <- <-. split; congruence.
      * destruct Hint as [(refreshError & Hne2 & Hint) | Hint].
        -- rewrite Hint in Hrun.
           destruct ((attempt <? rts) && shouldRetry error).
           ++ eapply IH in Hrun; [done | done | | congruence].
              unfold sleep, handleAuthenticationFailure. simpl. congruence.
           ++ injection Hrun as <- <-.
              unfold handleAuthenticationFailure. simpl. split; congruence.
        -- rewrite Hint in Hrun.
           destruct (reissue (set__retry true config)
                             (emit (EvReissue (url config)) w2))
             as [[o2 w3] |] eqn:Hre; [| discriminate].
           apply reissue_no_breaker in Hre as [Hcb3 Ho2];
             [| done | simpl; congruence].
           destruct o2 as [v | e].
           ++ injection Hrun as <- <-. split; [done | discriminate].
           ++ destruct ((attempt <? rts) && shouldRetry error).
              ** eapply IH in Hrun; [done | done | | congruence].
                 unfold sleep. simpl. congruence.
              ** injection Hrun as <- <-. split; [done | congruence].
Qed.

End NoBreaker.

Lemma request_no_breaker env u m :
  m !! getServiceFromUrl u = None ->
  forall fuel config w o w',
    url config = u -> circuitBreakers w = m ->
    request env fuel config w = Some (o, w') ->
    circuitBreakers w' = m /\ o <> Rejected (Some circuitOpenError).
Proof.
  intros Hm. induction fuel as [| fuel IH]; intros config w o w' Hu Hw Hrun.
  - discriminate.
  - cbn [request] in Hrun. unfold requestInterceptor, Math_random in Hrun.
    cbn [url set_draws circuitBreakers] in Hrun.
    rewrite Hu, Hw, Hm in Hrun.
    unfold executeRequest in Hrun.
    eapply (attempts_no_breaker env (request env fuel) u m) in Hrun;
      [done | | done | done | discriminate].
    intros config0 w0 o0 w0' H1 H2 H3. by eapply IH.
Qed.

Lemma request_settles env fuel config w :
  (2 <= fuel)%nat -> exists o w', request env fuel config w = Some (o, w').
Proof.
  intros Hfuel. destruct fuel as [| [| fuel]]; [lia | lia |].
  destruct (_retry config) eqn:Hretry.
  - destruct (request_retried env (S fuel) config w Hretry) as (o & w' & _ & H & _).
    eauto.
  - destruct (request_fresh env fuel config w Hretry) as (o & w' & _ & H & _).
    eauto.
Qed.

(** C10.  The constructor creates a breaker for "products", "auth" and
    "orders" and for no other key.  A URL that contains none of
    "/products", "/auth", "/orders" is the URL of the service "unknown";
    in a client with those three breakers the lookup finds none,
    [request] is [executeRequest] on the intercepted configuration, it
    settles, it is never rejected with the circuit-open error, and it
    leaves every breaker as it was. *)
Theorem unknown_service_bypasses_breakers env config w :
  includes (url config) "/products" = false ->
  includes (url config) "/auth" = false ->
  includes (url config) "/orders" = false ->
  (forall k, is_Some (circuitBreakers w !! k) ->
             k = "products" \/ k = "auth" \/ k = "orders") ->
  (forall t user k,
     is_Some (circuitBreakers (new_APIClient t user) !! k) <->
     k = "products" \/ k = "auth" \/ k = "orders") /\
  getServiceFromUrl (url config) = "unknown" /\
  circuitBreakers w !! getServiceFromUrl (url config) = None /\
  (forall fuel,
     request env (S fuel) config w =
     executeRequest env (request env fuel)
       (fst (requestInterceptor env config w))
       (snd (requestInterceptor env config w))) /\
  (forall fuel, (2 <= fuel)%nat ->
     exists o w', request env fuel config w = Some (o, w')) /\
  (forall fuel o w',
     request env fuel config w = Some (o, w') ->
     o <> Rejected (Some circuitOpenError) /\
     circuitBreakers w' = circuitBreakers w).
Proof.
  intros H1 H2 H3 Hw.
  pose proof (getServiceFromUrl_unknown _ H1 H2 H3) as Hunknown.
  assert (Hnone : circuitBreakers w !! getServiceFromUrl (url config) = None).
  { rewrite Hunknown. destruct (circuitBreakers w !! "unknown") eqn:E; [| done].
    destruct (Hw "unknown") as [H | [H | H]]; [by eexists | discriminate..]. }
  split; [| split; [done | split; [done | split; [| split]]]].
  - intros t user k. rewrite new_APIClient_breakers.
    case_bool_decide as Hk; split; intros H; done.
  - intros fuel. cbn [request]. unfold requestInterceptor, Math_random.
    cbn [fst snd url set_draws circuitBreakers]. by rewrite Hnone.
  - intros fuel Hfuel. by apply request_settles.
  - intros fuel o w' Hrun.
    destruct (request_no_breaker env (url config) (circuitBreakers w) Hnone
                fuel config w o w' eq_refl eq_refl Hrun) as [Ha Hb].
    done.
Qed.

Lemma unknown_service_bypasses_breakers_witness :
  getServiceFromUrl "/health" = "unknown" /\
  circuitBreakers (new_APIClient 0 None) !! getServiceFromUrl "/health" = None /\
  exists o w', request (always 500) 2 (get "/health") (new_APIClient 0 None)
               = Some (o, w').
Proof.
  destruct (unknown_service_bypasses_breakers (always 500) (get "/health")
              (new_APIClient 0 None))
    as (_ & Ha & Hb & _ & Hc & _);
    [reflexivity | reflexivity | reflexivity | |].
  - intros k Hk. rewrite new_APIClient_breakers in Hk.
    case_bool_decide; [done | by destruct Hk].
  - split; [exact Ha |]. split; [exact Hb |]. apply Hc. lia.
Defined.

(** Four responses of status 500 for a URL of no known service: four
    attempts, three sleeps, and the breakers are as they were built. *)
Example unknown_service_500 :
  match request (always 500) 2 (get "/health") (new_APIClient 0 None) with
  | Some (Rejected (Some e), w') =>
      status e = Some 500 /\
      count is_attempt (log w') = 4%nat /\
      count is_sleep (log w') = 3%nat /\
      circuitBreakers w' = circuitBreakers (new_APIClient 0 None)
  | _ => False
  end.
Proof. vm_compute. repeat split; reflexivity. Qed.

(** * Further properties *)

(** ** Strings *)

Lemma append_nil_l s : "" +:+ s = s.
Proof. reflexivity. Qed.

Lemma append_cons c s1 s2 : String c s1 +:+ s2 = String c (s1 +:+ s2).
Proof. reflexivity. Qed.

Lemma append_nil_r s : s +:+ "" = s.
Proof. induction s as [| c s IH]; [done |]. by rewrite append_cons, IH. Qed.

Lemma append_assoc s1 s2 s3 : (s1 +:+ s2) +:+ s3 = s1 +:+ (s2 +:+ s3).
Proof.
  induction s1 as [| c s1 IH]; [done |]. by rewrite !append_cons, IH.
Qed.

Lemma prefix_cons c sub d s :
  String.prefix (String c sub) (String d s) = true <->
  c = d /\ String.prefix sub s = true.
Proof.
  cbn [String.prefix]. destruct (Ascii.ascii_dec c d); [tauto |].
  split; [discriminate | tauto].
Qed.

Lemma prefix_nil s : String.prefix "" s = true.
Proof. by destruct s. Qed.

Lemma prefix_append sub r : String.prefix sub (sub +:+ r) = true.
Proof.
  induction sub as [| c sub IH]; [apply prefix_nil |].
  rewrite append_cons. by apply prefix_cons.
Qed.

Lemma prefix_split sub : forall s,
  String.prefix sub s = true -> exists r, s = sub +:+ r.
Proof.
  induction sub as [| c sub IH]; intros s H.
  - by exists s.
  - destruct s as [| d s]; [discriminate |].
    apply prefix_cons in H as [-> H]. destruct (IH s H) as [r ->].
    by exists r.
Qed.

Lemma prefix_append_r sub : forall s r,
  String.prefix sub s = true -> String.prefix sub (s +:+ r) = true.
Proof.
  intros s r H. destruct (prefix_split sub s H) as [r' ->].
  rewrite append_assoc. apply prefix_append.
Qed.

Lemma includes_cons c s sub :
  includes (String c s) sub = String.prefix sub (String c s) || includes s sub.
Proof. reflexivity. Qed.

(** A string contains what one of its parts contains. *)
Lemma includes_append_r s r sub :
  includes s sub = true -> includes (s +:+ r) sub = true.
Proof.
  induction s as [| c s IH]; intros H.
  - cbn [includes] in H. rewrite orb_false_r in H.
    rewrite append_nil_l. apply prefix_includes.
    change r with ("" +:+ r). by apply prefix_append_r.
  - rewrite includes_cons in H. rewrite append_cons, includes_cons.
    apply orb_prop in H as [H | H].
    + rewrite <- append_cons, (prefix_append_r _ _ r H). done.
    + rewrite (IH H). apply orb_true_r.
Qed.

Lemma includes_append_l a s sub :
  includes s sub = true -> includes (a +:+ s) sub = true.
Proof.
  intros H. induction a as [| c a IH]; [done |].
  rewrite append_cons, includes_cons, IH. apply orb_true_r.
Qed.

Lemma includes_middle a sub b : includes (a +:+ sub +:+ b) sub = true.
Proof. apply includes_append_l, prefix_includes, prefix_append. Qed.

Lemma includes_prefix p s sub :
  String.prefix p s = true -> includes p sub = true -> includes s sub = true.
Proof.
  intros Hp Hs. destruct (prefix_split p s Hp) as [r ->].
  by apply includes_append_r.
Qed.

(** ** Routing of URLs to breakers *)

Lemma getServiceFromUrl_eq u :
  getServiceFromUrl u =
    (if includes u "/products" then "products"
     else if includes u "/auth" then "auth"
     else if includes u "/orders" then "orders"
     else "unknown").
Proof.
  unfold getServiceFromUrl.
  destruct (includes u "/products") eqn:H1; [by rewrite orb_true_r |].
  pose proof (includes_api u "/products" H1) as A1.
  change ("/api" +:+ "/products") with "/api/products" in A1. rewrite A1.
  cbn [orb].
  destruct (includes u "/auth") eqn:H2; [by rewrite orb_true_r |].
  pose proof (includes_api u "/auth" H2) as A2.
  change ("/api" +:+ "/auth") with "/api/auth" in A2. rewrite A2.
  cbn [orb].
  destruct (includes u "/orders") eqn:H3; [by rewrite orb_true_r |].
  pose proof (includes_api u "/orders" H3) as A3.
  change ("/api" +:+ "/orders") with "/api/orders" in A3. by rewrite A3.
Qed.

(** X1.  The service of a URL is decided by the first of "/products",
    "/auth", "/orders" that the URL contains anywhere, in this order (the
    tests for "/api/products" and the like change nothing), so a URL
    that contains "/products" after whatever else is a "products" URL. *)
Theorem getServiceFromUrl_priority u :
  getServiceFromUrl u =
    (if includes u "/products" then "products"
     else if includes u "/auth" then "auth"
     else if includes u "/orders" then "orders"
     else "unknown") /\
  (forall a b, getServiceFromUrl (a +:+ "/products" +:+ b) = "products") /\
  (forall a b, includes (a +:+ "/auth" +:+ b) "/products" = false ->
     getServiceFromUrl (a +:+ "/auth" +:+ b) = "auth").
Proof.
  split; [apply getServiceFromUrl_eq |]. split.
  - intros a b. by rewrite getServiceFromUrl_eq, includes_middle.
  - intros a b H. by rewrite getServiceFromUrl_eq, H, includes_middle.
Qed.

(** An orders URL whose query names a products path goes through the
    breaker of "products". *)
Example orders_url_routed_to_products :
  getServiceFromUrl "/orders/7?next=/products/3" = "products".
Proof. reflexivity. Qed.

(** ** Building URLs *)

Lemma strip_prefix_append sub r : strip_prefix sub (sub +:+ r) = Some r.
Proof.
  induction sub as [| c sub IH]; [reflexivity |].
  rewrite append_cons. cbn [strip_prefix]. by rewrite Ascii.eqb_refl.
Qed.

Lemma strip_prefix_spec sub : forall s rest,
  strip_prefix sub s = Some rest -> s = sub +:+ rest.
Proof.
  induction sub as [| c sub IH]; intros s rest H.
  - cbn in H. by injection H as ->.
  - destruct s as [| d s]; [discriminate |]. cbn [strip_prefix] in H.
    destruct (Ascii.eqb c d) eqn:E; [| discriminate].
    apply Ascii.eqb_eq in E as ->. rewrite append_cons. f_equal. by apply IH.
Qed.

Lemma strip_prefix_prefix sub : forall s,
  String.prefix sub s = true -> is_Some (strip_prefix sub s).
Proof.
  intros s H. destruct (prefix_split sub s H) as [r ->].
  rewrite strip_prefix_append. by eexists.
Qed.

Lemma find_first_spec sub : forall s before after,
  find_first s sub = Some (before, after) -> s = before +:+ sub +:+ after.
Proof.
  induction s as [| c s IH]; intros before after H; cbn [find_first] in H.
  - destruct (strip_prefix sub "") as [rest |] eqn:E; [| discriminate].
    injection H as <- <-. by apply strip_prefix_spec in E.
  - destruct (strip_prefix sub (String c s)) as [rest |] eqn:E.
    + injection H as <- <-. by apply strip_prefix_spec in E.
    + destruct (find_first s sub) as [[b1 a1] |] eqn:F; [| discriminate].
      injection H as <- <-. rewrite append_cons. f_equal. by apply IH.
Qed.

Lemma find_first_includes sub : forall s,
  includes s sub = true -> is_Some (find_first s sub).
Proof.
  induction s as [| c s IH]; intros H.
  - cbn [includes] in H. rewrite orb_false_r in H. cbn [find_first].
    destruct (strip_prefix_prefix sub "" H) as [rest ->]. by eexists.
  - rewrite includes_cons in H. cbn [find_first].
    destruct (strip_prefix sub (String c s)) as [rest |] eqn:E; [by eexists |].
    apply orb_prop in H as [H | H].
    + destruct (strip_prefix_prefix sub _ H) as [rest E']. congruence.
    + destruct (IH H) as [[b a] ->]. by eexists.
Qed.

Lemma find_first_not_included sub : forall s,
  includes s sub = false -> find_first s sub = None.
Proof.
  intros s H. destruct (find_first s sub) as [[b a] |] eqn:F; [| done].
  apply find_first_spec in F as ->. by rewrite includes_middle in H.
Qed.

(** [find_first] finds the first occurrence. *)
Lemma find_first_least sub : forall s before after b2 a2,
  find_first s sub = Some (before, after) ->
  s = b2 +:+ sub +:+ a2 ->
  (String.length before <= String.length b2)%nat.
Proof.
  induction s as [| c s IH]; intros before after b2 a2 H Hs; cbn [find_first] in H.
  - destruct (strip_prefix sub "") as [rest |]; [| discriminate].
    injection H as <- <-. simpl. lia.
  - destruct (strip_prefix sub (String c s)) as [rest |] eqn:E.
    + injection H as <- <-. simpl. lia.
    + destruct (find_first s sub) as [[b1 a1] |] eqn:F; [| discriminate].
      injection H as <- <-.
      destruct b2 as [| c2 b2].
      * rewrite append_nil_l in Hs. rewrite Hs, strip_prefix_append in E.
        discriminate.
      * rewrite append_cons in Hs. injection Hs as -> Hs.
        simpl. apply le_n_S. by eapply IH.
Qed.

Lemma no_char_cons c s x :
  includes (String c s) (String x "") = false ->
  Ascii.eqb x c = false /\ includes s (String x "") = false.
Proof.
  rewrite includes_cons. intros H. apply orb_false_elim in H as [H1 H2].
  split; [| done]. destruct (Ascii.eqb x c) eqn:E; [| done].
  apply Ascii.eqb_eq in E as ->.
  assert (String.prefix (String c "") (String c s) = true)
    by (apply prefix_cons; split; [done | apply prefix_nil]).
  congruence.
Qed.

(** A value without a dollar sign is its own replacement text. *)
Lemma GetSubstitution_plain matched before after : forall v,
  includes v "$" = false -> GetSubstitution matched before after v = v.
Proof.
  induction v as [| c v IH]; intros H; [reflexivity |].
  apply no_char_cons in H as [Hc Hv].
  cbn [GetSubstitution]. rewrite Ascii.eqb_sym, Hc. f_equal. by apply IH.
Qed.

(** The first brace of [p +:+ r] is not in [p] when [p] has none. *)
Lemma find_first_after_prefix k r : forall p before after,
  includes p "{" = false ->
  find_first (p +:+ r) (String "{" k) = Some (before, after) ->
  exists b, before = p +:+ b /\ find_first r (String "{" k) = Some (b, after).
Proof.
  induction p as [| c p IH]; intros before after Hp H.
  - exists before. by rewrite append_nil_l in *.
  - apply no_char_cons in Hp as [Hc Hp].
    rewrite append_cons in H. cbn [find_first strip_prefix] in H.
    rewrite Hc in H.
    destruct (find_first (p +:+ r) (String "{" k)) as [[b1 a1] |] eqn:F;
      [| discriminate].
    injection H as <- <-. destruct (IH b1 a1 Hp eq_refl) as (b & -> & Hb).
    exists b. by rewrite append_cons.
Qed.

Lemma String_replace_keeps_prefix p s k v :
  includes p "{" = false ->
  String.prefix p s = true ->
  String.prefix p (String_replace s ("{" +:+ k +:+ "}") v) = true.
Proof.
  intros Hp Hs. destruct (prefix_split p s Hs) as [r ->].
  unfold String_replace. rewrite append_cons, append_nil_l.
  destruct (find_first (p +:+ r) (String "{" (k +:+ "}"))) as [[before after] |] eqn:F;
    [| done].
  destruct (find_first_after_prefix _ _ _ _ _ Hp F) as (b & -> & _).
  rewrite append_assoc. apply prefix_append.
Qed.

Lemma fold_replace_keeps_prefix p params : forall s,
  includes p "{" = false ->
  String.prefix p s = true ->
  String.prefix p
    (fold_left (fun u kv => String_replace u ("{" +:+ fst kv +:+ "}") (snd kv))
               params s) = true.
Proof.
  induction params as [| [k v] params IH]; intros s Hp Hs; [done |].
  cbn [fold_left fst snd]. apply IH; [done |].
  by apply String_replace_keeps_prefix.
Qed.

(** X2.  Whatever the parameters are, a URL built for a product endpoint
    goes through the breaker of "products", a URL built for an auth
    endpoint through the breaker of "auth" or of "products", a URL built
    for an order endpoint through one of the three breakers, and the
    health URL is "/health", which goes through none. *)
Theorem buildUnifiedApiUrl_service endpoint params :
  let service := getServiceFromUrl (buildUnifiedApiUrl endpoint params) in
  match endpoint with
  | PRODUCTS | PRODUCT_DETAIL | PRODUCT_CATEGORIES | PRODUCT_MATERIALS
  | PRODUCT_STYLES | PRODUCT_AVAILABILITY | PRODUCT_RESERVE =>
      service = "products"
  | AUTH_LOGIN | AUTH_REGISTER | AUTH_LOGOUT | AUTH_REFRESH | AUTH_VALIDATE
  | AUTH_PROFILE | AUTH_CART | AUTH_CART_ITEMS | AUTH_CART_ITEM
  | AUTH_CLEAR_CART =>
      service = "auth" \/ service = "products"
  | ORDERS | ORDER_DETAIL | USER_ORDERS | ORDER_STATUS =>
      service <> "unknown"
  | HEALTH =>
      buildUnifiedApiUrl endpoint params = "/health" /\ service = "unknown"
  end.
Proof.
  intros service.
  assert (Hpre : forall p e,
            includes p "{" = false ->
            String.prefix p (BASE_URL +:+ ENDPOINTS e) = true ->
            forall x, includes p x = true ->
            includes
              (fold_left
                 (fun u kv => String_replace u ("{" +:+ fst kv +:+ "}") (snd kv))
                 params (BASE_URL +:+ ENDPOINTS e)) x = true).
  { intros p e Hp He x Hx. eapply includes_prefix; [| exact Hx].
    by apply fold_replace_keeps_prefix. }
  unfold service. rewrite getServiceFromUrl_eq.
  destruct endpoint; cbn [buildUnifiedApiUrl];
    try (match goal with
         | |- context [ENDPOINTS ?e] =>
             first
               [ rewrite (Hpre "/products" e eq_refl eq_refl "/products" eq_refl);
                 reflexivity
               | rewrite (Hpre "/auth" e eq_refl eq_refl "/auth" eq_refl);
                 destruct (includes _ "/products"); [by right | by left]
               | rewrite (Hpre "/orders" e eq_refl eq_refl "/orders" eq_refl);
                 repeat case_match; discriminate ]
         end).
  split; reflexivity.
Qed.

(** A session identifier that contains "/products" sends the auth URL
    through the breaker of "products". *)
Example validate_url_routed_to_products :
  buildUnifiedApiUrl AUTH_VALIDATE [("sessionId", "x/products")]
    = "/auth/validate/x/products" /\
  getServiceFromUrl (buildUnifiedApiUrl AUTH_VALIDATE [("sessionId", "x/products")])
    = "products".
Proof. split; reflexivity. Qed.

(** X3.  [replace] with a value that has no dollar sign: a string
    without the pattern is returned as it is; otherwise the value stands
    where the first occurrence of the pattern stood, and the text before
    and after it is kept. *)
Theorem String_replace_first s pattern v :
  includes v "$" = false ->
  (includes s pattern = false -> String_replace s pattern v = s) /\
  (includes s pattern = true ->
   exists before after,
     s = before +:+ pattern +:+ after /\
     String_replace s pattern v = before +:+ v +:+ after /\
     forall b2 a2, s = b2 +:+ pattern +:+ a2 ->
                   (String.length before <= String.length b2)%nat).
Proof.
  intros Hv. split; intros H; unfold String_replace.
  - by rewrite (find_first_not_included _ _ H).
  - destruct (find_first_includes _ _ H) as [[before after] F]. rewrite F.
    exists before, after. split; [by apply find_first_spec |].
    split; [by rewrite GetSubstitution_plain |].
    intros b2 a2 Hs. by eapply find_first_least.
Qed.

Lemma String_replace_first_witness :
  exists before after,
    "/auth/cart/{userId}/items/{itemId}" = before +:+ "{itemId}" +:+ after /\
    String_replace "/auth/cart/{userId}/items/{itemId}" "{itemId}" "p-9"
      = before +:+ "p-9" +:+ after.
Proof.
  destruct (String_replace_first "/auth/cart/{userId}/items/{itemId}" "{itemId}"
              "p-9" eq_refl) as [_ H].
  destruct (H eq_refl) as (before & after & H1 & H2 & _).
  exists before, after. split; [exact H1 | exact H2].
Defined.

(** A dollar sign in a value is read as a pattern: [$&] brings the
    placeholder back. *)
Example dollar_in_path_parameter :
  buildUnifiedApiUrl PRODUCT_DETAIL [("id", "a$&b")] = "/products/a{id}b".
Proof. reflexivity. Qed.

(** X4.  For an endpoint whose path has the placeholder of [k] after a
    part without braces, and a value without a dollar sign, the URL built
    from the one parameter is the path with the value in the place of
    the placeholder. *)
Theorem buildUnifiedApiUrl_substitutes endpoint a k b v :
  endpoint <> HEALTH ->
  ENDPOINTS endpoint = a +:+ "{" +:+ k +:+ "}" +:+ b ->
  includes a "{" = false ->
  includes v "$" = false ->
  buildUnifiedApiUrl endpoint [(k, v)] = a +:+ v +:+ b.
Proof.
  intros Hne He Ha Hv.
  assert (Hb : buildUnifiedApiUrl endpoint [(k, v)] =
               String_replace (BASE_URL +:+ ENDPOINTS endpoint)
                              ("{" +:+ k +:+ "}") v)
    by (destruct endpoint; done).
  rewrite Hb. unfold BASE_URL. rewrite append_nil_l, He.
  assert (Hs : a +:+ "{" +:+ k +:+ "}" +:+ b =
               a +:+ (String "{" (k +:+ "}") +:+ b)).
  { f_equal. change (String "{" (k +:+ "}") +:+ b)
      with (String "{" ((k +:+ "}") +:+ b)).
    by rewrite append_assoc. }
  rewrite Hs. unfold String_replace.
  change ("{" +:+ k +:+ "}") with (String "{" (k +:+ "}")).
  destruct (find_first (a +:+ (String "{" (k +:+ "}") +:+ b)) (String "{" (k +:+ "}")))
    as [[before after] |] eqn:F.
  - destruct (find_first_after_prefix _ _ _ _ _ Ha F) as (b0 & -> & F0).
    rewrite append_cons in F0. cbn [find_first strip_prefix] in F0.
    rewrite Ascii.eqb_refl, strip_prefix_append in F0. injection F0 as <- <-.
    by rewrite GetSubstitution_plain, append_nil_r.
  - pose proof (includes_append_l a _ _
                  (prefix_includes _ _ (prefix_append (String "{" (k +:+ "}")) b)))
      as Hin.
    apply find_first_includes in Hin as [x Hx]. congruence.
Qed.

Lemma buildUnifiedApiUrl_substitutes_witness :
  buildUnifiedApiUrl PRODUCT_AVAILABILITY [("id", "42")]
    = "/products/" +:+ "42" +:+ "/availability".
Proof.
  apply (buildUnifiedApiUrl_substitutes PRODUCT_AVAILABILITY "/products/" "id"
           "/availability" "42");
    [discriminate | reflexivity | reflexivity | reflexivity].
Defined.

(** ** The event bus *)

Lemma filter_ne_not_elem (callback : nat) (l : list nat) :
  callback ∉ l -> filter (fun cb => cb <> callback) l = l.
Proof.
  induction l as [| x l IH]; intros H; [done |].
  apply not_elem_of_cons in H as [Hx Hl].
  rewrite filter_cons_True by congruence. by rewrite IH.
Qed.

(** X5.  [off] removes every registration of the callback for the event,
    however often it was registered, keeps the other callbacks of the
    event in their order, and leaves the other events alone. *)
Theorem EventBus_off_removes_every_registration event callback events :
  EventBus.inherited event = false ->
  exists events' called called',
    EventBus.off event callback events = Some events' /\
    EventBus.emit event events = Some called /\
    EventBus.emit event events' = Some called' /\
    called' = filter (fun cb => cb <> callback) called /\
    (callback ∉ called') /\
    (forall other, other <> event ->
       EventBus.emit other events' = EventBus.emit other events).
Proof.
  intros Hin. unfold EventBus.off, EventBus.emit. rewrite Hin.
  destruct (events !! event) as [callbacks |] eqn:E.
  - exists (<[event := filter (fun cb => cb <> callback) callbacks]> events),
      callbacks, (filter (fun cb => cb <> callback) callbacks).
    rewrite lookup_insert_eq. simpl.
    split; [reflexivity |]. split; [reflexivity |]. split; [reflexivity |].
    split; [reflexivity |]. split.
    + intros H. apply list_elem_of_filter in H as [H _]. by apply H.
    + intros other Hne. by rewrite lookup_insert_ne.
  - exists events, [], []. rewrite E. simpl.
    repeat split; try done. apply not_elem_of_nil.
Qed.

Lemma EventBus_off_removes_every_registration_witness :
  exists events' called',
    EventBus.off "cart:updated" 7%nat
      {["cart:updated" := [7; 3; 7]%nat; "auth:login" := [7]%nat]} = Some events' /\
    EventBus.emit "cart:updated" events' = Some called' /\
    7%nat ∉ called'.
Proof.
  destruct (EventBus_off_removes_every_registration "cart:updated" 7%nat
              {["cart:updated" := [7; 3; 7]%nat; "auth:login" := [7]%nat]} eq_refl)
    as (events' & called & called' & H1 & _ & H2 & _ & H3 & _).
  exists events', called'. split; [exact H1 |]. split; [exact H2 | exact H3].
Defined.

(** X6.  [on] puts the callback after the callbacks that the event
    already has and leaves the other events alone; a callback that was
    not registered for the event and is registered twice is called twice,
    and one [off] then brings back the calls that [emit] made before. *)
Theorem EventBus_on_twice_off event callback events :
  EventBus.inherited event = false ->
  callback ∉ default [] (events !! event) ->
  exists once twice gone called,
    EventBus.emit event events = Some called /\
    EventBus.on event callback events = Some once /\
    EventBus.emit event once = Some (called ++ [callback]) /\
    EventBus.on event callback once = Some twice /\
    EventBus.emit event twice = Some (called ++ [callback; callback]) /\
    EventBus.off event callback twice = Some gone /\
    EventBus.emit event gone = Some called /\
    (forall other, other <> event ->
       EventBus.emit other once = EventBus.emit other events /\
       EventBus.emit other gone = EventBus.emit other events).
Proof.
  intros Hin Hnot. unfold EventBus.on, EventBus.off, EventBus.emit.
  rewrite Hin. set (called := default [] (events !! event)) in *.
  exists (<[event := called ++ [callback]]> events),
    (<[event := (called ++ [callback]) ++ [callback]]>
       (<[event := called ++ [callback]]> events)),
    (<[event := filter (fun cb => cb <> callback)
                       ((called ++ [callback]) ++ [callback])]>
       (<[event := (called ++ [callback]) ++ [callback]]>
          (<[event := called ++ [callback]]> events))),
    called.
  rewrite !lookup_insert_eq. simpl.
  split; [reflexivity |]. split; [reflexivity |]. split; [reflexivity |].
  split; [reflexivity |]. split; [by rewrite <- app_assoc |].
  split; [reflexivity |]. split.
  - f_equal. rewrite !filter_app, (filter_ne_not_elem _ _ Hnot).
    rewrite !filter_cons_False by (intros H; by apply H).
    by rewrite filter_nil, !app_nil_r.
  - intros other Hne. rewrite !lookup_insert_ne by done. done.
Qed.

Lemma EventBus_on_twice_off_witness :
  exists once twice gone,
    EventBus.on "auth:failure" 2%nat {["auth:failure" := [1]%nat]} = Some once /\
    EventBus.on "auth:failure" 2%nat once = Some twice /\
    EventBus.emit "auth:failure" twice = Some ([1] ++ [2; 2])%nat /\
    EventBus.off "auth:failure" 2%nat twice = Some gone /\
    EventBus.emit "auth:failure" gone = Some [1]%nat.
Proof.
  destruct (EventBus_on_twice_off "auth:failure" 2%nat {["auth:failure" := [1]%nat]}
              eq_refl)
    as (once & twice & gone & called & H0 & H1 & _ & H2 & H3 & H4 & H5 & _).
  - vm_compute. intros H. apply list_elem_of_In in H. simpl in H. lia.
  - vm_compute in H0. injection H0 as <-.
    exists once, twice, gone.
    split; [exact H1 |]. split; [exact H2 |]. split; [exact H3 |].
    split; [exact H4 | exact H5].
Defined.

(** ** A request, step by step *)

Section Steps.

Variable env : Env.
Variable u : string.
Variable reissue : Config -> Operation.

Hypothesis reissue_steps : forall config w o w',
  url config = u -> reissue config w = Some (o, w') -> rtc (prim env u) w w'.

Lemma sleep_step w attempt delay :
  rtc (prim env u) w
    (sleep (calculateRetryDelay (random env (draws w)) attempt delay)
           (set_draws (S (draws w)) w)).
Proof. apply rtc_once, prim_sleep. Qed.

(** The loop of [executeRequest] is made of these steps. *)
Lemma attempts_steps rts delay :
  forall n attempt config lastError w o w',
    url config = u ->
    attempts env reissue rts delay n attempt config lastError w = Some (o, w') ->
    rtc (prim env u) w w'.
Proof.
  induction n as [| n IH]; intros attempt config lastError w o w' Hu Hrun.
  - simpl in Hrun. injection Hrun as <- <-. apply rtc_refl.
  - rewrite attempts_S in Hrun. cbv zeta in Hrun. rewrite Hu in Hrun.
    set (o1 := network env (fetches w)) in *.
    set (w0 := emit (EvAttempt u o1) _) in *.
    destruct (attempt_body config o1 w0) as [[error | v] w1] eqn:Hbody.
    + assert (w1 = w0) as ->.
      { unfold attempt_body in Hbody. repeat case_match; by simplify_eq. }
      assert (Hatt : prim env u w (responseError config w0)).
      { apply (prim_attempt env u w false
                 (now w0 - (if _startTime config =? 0 then now w0
                            else _startTime config))). }
      unfold errorInterceptor in Hrun.
      destruct (bool_decide (status error = Some 401) && negb (_retry config)).
      * destruct (refreshToken env (responseError config w0))
          as [[refreshError | tok] w2] eqn:Href.
        -- assert (Hto : rtc (prim env u) w (handleAuthenticationFailure w2)).
           { eapply rtc_l; [exact Hatt |]. eapply rtc_l; [by eapply prim_refresh |].
             apply rtc_once, prim_authFailure. }
           destruct ((attempt <? rts) && shouldRetry error).
           ++ etrans; [exact Hto |]. etrans; [apply sleep_step |].
              eapply IH; [| exact Hrun]; exact Hu.
           ++ by injection Hrun as <- <-.
        -- destruct (reissue (set__retry true config)
                             (emit (EvReissue (url (set__retry true config))) w2))
             as [[o2 w3] |] eqn:Hre; [| discriminate].
           assert (Hto : rtc (prim env u) w w3).
           { eapply rtc_l; [exact Hatt |]. eapply rtc_l; [by eapply prim_refresh |].
             eapply rtc_l; [apply prim_reissue |].
             eapply reissue_steps; [| cbn [url set__retry] in Hre; rewrite Hu in Hre;
                                      exact Hre].
             done. }
           destruct o2 as [v | e].
           ++ by injection Hrun as <- <-.
           ++ destruct ((attempt <? rts) && shouldRetry error).
              ** etrans; [exact Hto |]. etrans; [apply sleep_step |].
                 eapply IH; [| exact Hrun]; exact Hu.
              ** by injection Hrun as <- <-.
      * destruct ((attempt <? rts) && shouldRetry error).
        -- etrans; [apply rtc_once, Hatt |]. etrans; [apply sleep_step |].
           eapply IH; [| exact Hrun]; exact Hu.
        -- injection Hrun as <- <-. apply rtc_once, Hatt.
    + injection Hrun as <- <-.
      assert (w1 = responseSuccess config w0) as ->.
      { unfold attempt_body in Hbody. repeat case_match; by simplify_eq. }
      apply rtc_once.
      apply (prim_attempt env u w true (now w0 - _startTime config)).
Qed.

End Steps.

(** A request is made of these steps. *)
Lemma request_steps env : forall fuel config w o w',
  request env fuel config w = Some (o, w') ->
  rtc (prim env (url config)) w w'.
Proof.
  induction fuel as [| fuel IH]; intros config w o w' Hrun; [discriminate |].
  cbn [request] in Hrun. unfold requestInterceptor, Math_random in Hrun.
  set (config1 := mkConfig _ _ _ _ _ _) in *.
  set (w1 := set_draws _ w) in *.
  assert (Hop : forall o2 w2,
            executeRequest env (request env fuel) config1 w1 = Some (o2, w2) ->
            rtc (prim env (url config)) w1 w2).
  { intros o2 w2 H. unfold executeRequest in H.
    eapply (attempts_steps env (url config) (request env fuel)); [| | exact H].
    - intros c w0 o0 w0' Hc Hr. rewrite <- Hc. by eapply IH.
    - reflexivity. }
  eapply rtc_l; [apply prim_intercept |]. fold w1.
  change (url config1) with (url config) in Hrun.
  destruct (circuitBreakers w1 !! getServiceFromUrl (url config)) as [cb |] eqn:E.
  - unfold execute in Hrun. rewrite E in Hrun.
    case_bool_decide.
    + injection Hrun as <- <-. apply rtc_refl.
    + destruct (executeRequest env (request env fuel) config1 w1)
        as [[[v | e] w2] |] eqn:Hex; [| | discriminate].
      * injection Hrun as <- <-. eapply rtc_r; [by eapply Hop |].
        apply prim_onSuccess.
      * injection Hrun as <- <-. eapply rtc_r; [by eapply Hop |].
        apply prim_onFailure.
  - by eapply Hop.
Qed.

Lemma refreshToken_metrics env w r w' :
  refreshToken env w = (r, w') -> metrics w' = metrics w.
Proof.
  unfold refreshToken, fetch. intros H. repeat case_match; by simplify_eq.
Qed.

Lemma lookup_with_breaker_is_Some self f w k :
  is_Some (circuitBreakers (with_breaker self f w) !! k) <->
  is_Some (circuitBreakers w !! k).
Proof.
  rewrite lookup_with_breaker. case_decide; [| done]. subst.
  by rewrite fmap_is_Some.
Qed.

(** A step changes no breaker but the one of the service of the URL, and
    creates or removes none. *)
Lemma prim_breakers env u w w' :
  prim env u w w' ->
  (forall k, k <> getServiceFromUrl u ->
             circuitBreakers w' !! k = circuitBreakers w !! k) /\
  (forall k, is_Some (circuitBreakers w' !! k) <-> is_Some (circuitBreakers w !! k)).
Proof.
  intros H. destruct H as [w | w success d | w r w' Href | w | w | w attempt delay
                          | w | w t]; try done.
  - destruct (refreshToken_effect _ _ _ _ Href) as [-> _]. done.
  - split.
    + intros k Hk. rewrite lookup_with_breaker. by rewrite decide_False.
    + intros k. apply lookup_with_breaker_is_Some.
  - split.
    + intros k Hk. rewrite lookup_with_breaker. by rewrite decide_False.
    + intros k. apply lookup_with_breaker_is_Some.
Qed.

(** X7.  A request changes no breaker but the one of the service of its
    URL (neither do its retries, its token refresh or its re-issue), and
    it adds no breaker to the map and removes none. *)
Theorem request_touches_one_breaker env fuel config w o w' :
  request env fuel config w = Some (o, w') ->
  (forall k, k <> getServiceFromUrl (url config) ->
             circuitBreakers w' !! k = circuitBreakers w !! k) /\
  (forall k, is_Some (circuitBreakers w' !! k) <-> is_Some (circuitBreakers w !! k)).
Proof.
  intros Hrun. apply request_steps in Hrun.
  induction Hrun as [w | w w1 w' Hstep _ IH].
  - done.
  - destruct (prim_breakers _ _ _ _ Hstep) as [H1 H2]. destruct IH as [H3 H4].
    split.
    + intros k Hk. by rewrite H3, H1.
    + intros k. by rewrite H4, H2.
Qed.

Lemma request_touches_one_breaker_witness :
  exists o w',
    request (always 500) 2 (get "/api/products/3") (new_APIClient 0 None)
      = Some (o, w') /\
    circuitBreakers w' !! "auth" = circuitBreakers (new_APIClient 0 None) !! "auth" /\
    circuitBreakers w' !! "orders" = circuitBreakers (new_APIClient 0 None) !! "orders".
Proof.
  assert (Hrun : exists o w',
             request (always 500) 2 (get "/api/products/3") (new_APIClient 0 None)
             = Some (o, w'))
    by (eexists; eexists; vm_compute; reflexivity).
  destruct Hrun as (o & w' & Hrun). exists o, w'. split; [exact Hrun |].
  destruct (request_touches_one_breaker _ _ _ _ _ _ Hrun) as [H _].
  split; apply H; vm_compute; discriminate.
Defined.

(** What a step does to the counters and to the window. *)
Lemma prim_metrics env u w w' :
  prim env u w w' ->
  exists d : Z,
    0 <= d <= 1 /\
    totalRequests (metrics w') = totalRequests (metrics w) + d /\
    successfulRequests (metrics w') + failedRequests (metrics w') =
      successfulRequests (metrics w) + failedRequests (metrics w) + d /\
    successfulRequests (metrics w) <= successfulRequests (metrics w') /\
    failedRequests (metrics w) <= failedRequests (metrics w') /\
    Z.of_nat (count is_attempt (log w')) = Z.of_nat (count is_attempt (log w)) + d /\
    ((length (requestTimes (metrics w)) <= 100)%nat ->
     (length (requestTimes (metrics w')) <= 100)%nat).
Proof.
  intros H. destruct H as [w | w success d | w r w' Href | w | w | w attempt delay
                          | w | w t].
  - exists 0. simpl. repeat split; lia.
  - exists 1. unfold attempted. cbn [metrics set_metrics log emit].
    split; [lia |]. split; [reflexivity |].
    split; [destruct success; simpl; lia |].
    split; [destruct success; simpl; lia |].
    split; [destruct success; simpl; lia |].
    split.
    + rewrite count_app, count_one. simpl. lia.
    + intros Hlen. by apply updateMetrics_length.
  - exists 0. rewrite (refreshToken_metrics _ _ _ _ Href).
    destruct (refreshToken_effect _ _ _ _ Href) as (_ & evs & Hevs & ->).
    destruct (refresh_events_counts _ Hevs) as (_ & _ & _ & _ & Ha & _).
    rewrite count_app, Ha. repeat split; lia.
  - exists 0. unfold handleAuthenticationFailure. simpl.
    rewrite count_app, count_one. simpl. repeat split; lia.
  - exists 0. simpl. rewrite count_app, count_one. simpl. repeat split; lia.
  - exists 0. unfold sleep. simpl. rewrite count_app, count_one. simpl.
    repeat split; lia.
  - exists 0. simpl. repeat split; lia.
  - exists 0. simpl. repeat split; lia.
Qed.

(** X8.  The metrics count attempts: over a request, [totalRequests]
    grows by the number of attempts made, retries and the re-issue
    included, and [successfulRequests] and [failedRequests] together grow
    by as much, neither of them ever going down; a window of at most 100
    durations stays one. *)
Theorem request_metrics_count_attempts env fuel config w o w' :
  request env fuel config w = Some (o, w') ->
  totalRequests (metrics w') - totalRequests (metrics w) =
    Z.of_nat (count is_attempt (log w')) - Z.of_nat (count is_attempt (log w)) /\
  (successfulRequests (metrics w') - successfulRequests (metrics w)) +
  (failedRequests (metrics w') - failedRequests (metrics w)) =
    totalRequests (metrics w') - totalRequests (metrics w) /\
  successfulRequests (metrics w) <= successfulRequests (metrics w') /\
  failedRequests (metrics w) <= failedRequests (metrics w') /\
  ((length (requestTimes (metrics w)) <= 100)%nat ->
   (length (requestTimes (metrics w')) <= 100)%nat).
Proof.
  intros Hrun. apply request_steps in Hrun.
  induction Hrun as [w | w w1 w' Hstep _ IH].
  - repeat split; lia.
  - destruct (prim_metrics _ _ _ _ Hstep) as (d & Hd & H1 & H2 & H3 & H4 & H5 & H6).
    destruct IH as (I1 & I2 & I3 & I4 & I5).
    repeat split; lia.
Qed.

Lemma request_metrics_count_attempts_witness :
  exists o w',
    request (scripted [Responds (response 503); Responds (response 200)])
            2 (get "/api/orders") (new_APIClient 0 None) = Some (o, w') /\
    totalRequests (metrics w') - totalRequests (metrics (new_APIClient 0 None)) =
      Z.of_nat (count is_attempt (log w'))
      - Z.of_nat (count is_attempt (log (new_APIClient 0 None))).
Proof.
  assert (Hrun : exists o w',
             request (scripted [Responds (response 503); Responds (response 200)])
                     2 (get "/api/orders") (new_APIClient 0 None) = Some (o, w'))
    by (eexists; eexists; vm_compute; reflexivity).
  destruct Hrun as (o & w' & Hrun). exists o, w'. split; [exact Hrun |].
  apply (request_metrics_count_attempts _ _ _ _ _ _ Hrun).
Defined.

(** One failed attempt, one successful one. *)
Example metrics_after_one_retry :
  match request (scripted [Responds (response 503); Responds (response 200)])
                2 (get "/api/orders") (new_APIClient 0 None) with
  | Some (Resolved _, w') =>
      totalRequests (metrics w') = 2 /\
      successfulRequests (metrics w') = 1 /\
      failedRequests (metrics w') = 1 /\
      length (requestTimes (metrics w')) = 2%nat
  | _ => False
  end.
Proof. vm_compute. repeat split; reflexivity. Qed.

(** A step logs no sleep of more than 30000 ms. *)
Lemma prim_sleeps env u w w' :
  prim env u w w' ->
  forall ms, EvSleep ms ∈ log w' -> EvSleep ms ∈ log w \/ (ms <= 30000)%Q.
Proof.
  intros H ms. destruct H as [w | w success d | w r w' Href | w | w | w attempt delay
                             | w | w t]; simpl; try (by left).
  - rewrite elem_of_app, list_elem_of_singleton. intros [H | H]; [by left | done].
  - destruct (refreshToken_effect _ _ _ _ Href) as (_ & evs & Hevs & ->).
    rewrite elem_of_app. intros [H | H]; [by left |].
    destruct Hevs as [-> | [o ->]].
    + apply list_elem_of_singleton in H. discriminate.
    + apply elem_of_cons in H as [H | H]; [discriminate |].
      apply list_elem_of_singleton in H. discriminate.
  - rewrite elem_of_app, list_elem_of_singleton. intros [H | H]; [by left | done].
  - rewrite elem_of_app, list_elem_of_singleton. intros [H | H]; [by left | done].
  - rewrite elem_of_app, list_elem_of_singleton. intros [H | H]; [by left |].
    right. injection H as ->. unfold calculateRetryDelay. apply Q.le_min_r.
Qed.

(** X9.  Whatever [retryDelay] and [retries] the configuration has and
    whatever [Math.random()] returns, no sleep between the attempts of a
    request is longer than 30000 ms. *)
Theorem request_sleeps_capped env fuel config w o w' :
  request env fuel config w = Some (o, w') ->
  forall ms, EvSleep ms ∈ log w' -> EvSleep ms ∈ log w \/ (ms <= 30000)%Q.
Proof.
  intros Hrun. apply request_steps in Hrun.
  induction Hrun as [w | w w1 w' Hstep _ IH]; intros ms Hms.
  - by left.
  - destruct (IH ms Hms) as [H | H]; [| by right].
    by eapply prim_sleeps.
Qed.

Lemma request_sleeps_capped_witness :
  exists o w',
    request (always 500) 2
            (mkConfig "/api/products" (Some 6) (Some 20000%Q) false 0 None)
            (new_APIClient 0 None) = Some (o, w') /\
    forall ms, EvSleep ms ∈ log w' ->
               EvSleep ms ∈ log (new_APIClient 0 None) \/ (ms <= 30000)%Q.
Proof.
  assert (Hrun : exists o w',
             request (always 500) 2
                     (mkConfig "/api/products" (Some 6) (Some 20000%Q) false 0 None)
                     (new_APIClient 0 None) = Some (o, w'))
    by (eexists; eexists; vm_compute; reflexivity).
  destruct Hrun as (o & w' & Hrun). exists o, w'. split; [exact Hrun |].
  apply (request_sleeps_capped _ _ _ _ _ _ Hrun).
Defined.

(** ** How many network calls a request makes *)

Lemma execute_inv self operation w o w' :
  execute self operation w = Some (o, w') ->
  (o = Rejected (Some circuitOpenError) /\ w' = w) \/
  (exists w2 f, operation w = Some (o, w2) /\ w' = with_breaker self f w2).
Proof.
  unfold execute. intros H.
  destruct (circuitBreakers w !! self) as [cb |]; [| discriminate].
  case_bool_decide.
  - injection H as <- <-. by left.
  - destruct (operation w) as [[[v | e] w2] |]; [| | discriminate];
      injection H as <- <-; right; eauto.
Qed.

Lemma refreshToken_fetches env w r w' :
  refreshToken env w = (r, w') ->
  (fetches w <= fetches w' <= S (fetches w))%nat.
Proof.
  unfold refreshToken, fetch. intros H.
  repeat case_match; simplify_eq; simpl; lia.
Qed.

Lemma attempt_body_401 config o w error w' :
  attempt_body config o w = (inl error, w') ->
  status error = Some 401 -> shouldRetry error = false.
Proof.
  intros H Hst.
  destruct (attempt_body_throws config "" o w error w' H) as (_ & _ & H1 & H2).
  destruct (is_401 (EvAttempt "" o)); [by apply H1 | by destruct H2].
Qed.

Section Fetches.

Variable env : Env.
Variable reissue : Config -> Operation.
Variable r : option Z.
Variable bound : nat.

Hypothesis reissue_fetches : forall config w o w',
  _retry config = true -> retries config = r ->
  reissue config w = Some (o, w') ->
  (fetches w <= fetches w' <= fetches w + bound)%nat.

(** The loop makes one call per iteration, and once more one call for the
    refresh and the calls of the re-issued request. *)
Lemma attempts_fetches rts delay :
  forall n attempt config lastError w o w',
    retries config = r ->
    attempts env reissue rts delay n attempt config lastError w = Some (o, w') ->
    (fetches w <= fetches w')%nat /\
    (fetches w' <= fetches w + n + (if _retry config then 0 else 1 + bound))%nat.
Proof.
  induction n as [| n IH]; intros attempt config lastError w o w' Hr Hrun.
  - simpl in Hrun. injection Hrun as <- <-. lia.
  - rewrite attempts_S in Hrun. cbv zeta in Hrun.
    set (o1 := network env (fetches w)) in *.
    set (w0 := emit (EvAttempt (url config) o1) _) in *.
    assert (Hw0 : fetches w0 = S (fetches w)) by reflexivity.
    destruct (attempt_body config o1 w0) as [[error | v] w1] eqn:Hbody.
    + assert (w1 = w0) as ->.
      { unfold attempt_body in Hbody. repeat case_match; by simplify_eq. }
      unfold errorInterceptor in Hrun.
      destruct (bool_decide (status error = Some 401) && negb (_retry config)) eqn:E.
      * apply andb_prop in E as [E1 E2]. apply bool_decide_eq_true_1 in E1.
        apply negb_true_iff in E2.
        rewrite (attempt_body_401 _ _ _ _ _ Hbody E1), andb_false_r in Hrun.
        rewrite E2.
        destruct (refreshToken env (responseError config w0))
          as [[refreshError | tok] w2] eqn:Href.
        -- injection Hrun as <- <-. apply refreshToken_fetches in Href.
           simpl in *. lia.
        -- apply refreshToken_fetches in Href.
           destruct (reissue (set__retry true config)
                             (emit (EvReissue (url (set__retry true config))) w2))
             as [[o2 w3] |] eqn:Hre; [| discriminate].
           apply reissue_fetches in Hre; [| done | done].
           assert (w' = w3) as -> by (destruct o2; by injection Hrun as <- <-).
           simpl in *. lia.
      * destruct ((attempt <? rts) && shouldRetry error).
        -- apply IH in Hrun; [| done]. unfold sleep in Hrun. simpl in Hrun.
           destruct (_retry config); lia.
        -- injection Hrun as <- <-. simpl. destruct (_retry config); lia.
    + injection Hrun as <- <-.
      assert (fetches w1 = fetches w0) as ->.
      { unfold attempt_body in Hbody. repeat case_match; by simplify_eq. }
      destruct (_retry config); lia.
Qed.

End Fetches.

(** X10.  A request makes at most [2 * (retries + 1) + 1] calls of
    [fetch]: at most [retries + 1] attempts, one call for the token
    refresh, and at most [retries + 1] attempts of the re-issued request;
    a request with [_retry] set makes at most [retries + 1]. *)
Theorem request_fetches_bounded env fuel config w o w' :
  request env fuel config w = Some (o, w') ->
  let attempts_max := Z.to_nat (default maxRetries (retries config) + 1) in
  (fetches w <= fetches w')%nat /\
  (fetches w' <= fetches w + 2 * attempts_max + 1)%nat /\
  (_retry config = true -> (fetches w' <= fetches w + attempts_max)%nat).
Proof.
  intros Hrun attempts_max.
  assert (Hgen : forall fuel config w o w',
            request env fuel config w = Some (o, w') ->
            (fetches w <= fetches w')%nat /\
            (fetches w' <= fetches w
                           + Z.to_nat (default maxRetries (retries config) + 1)
                           + (if _retry config then 0
                              else 1 + Z.to_nat (default maxRetries (retries config) + 1)))%nat).
  { clear. induction fuel as [| fuel IH]; intros config w o w' Hrun; [discriminate |].
    cbn [request] in Hrun. unfold requestInterceptor, Math_random in Hrun.
    set (config1 := mkConfig _ _ _ _ _ _) in *.
    set (w1 := set_draws _ w) in *.
    assert (Hop : forall o2 w2,
              executeRequest env (request env fuel) config1 w1 = Some (o2, w2) ->
              (fetches w <= fetches w2)%nat /\
              (fetches w2 <= fetches w
                             + Z.to_nat (default maxRetries (retries config) + 1)
                             + (if _retry config then 0
                                else 1 + Z.to_nat (default maxRetries (retries config) + 1)))%nat).
    { intros o2 w2 H. unfold executeRequest in H.
      eapply (attempts_fetches env (request env fuel) (retries config)
                (Z.to_nat (default maxRetries (retries config) + 1))) in H;
        [exact H | | reflexivity].
      intros c w0 o0 w0' Hc1 Hc2 Hc3. apply IH in Hc3.
      rewrite Hc1, Hc2 in Hc3. lia. }
    change (url config1) with (url config) in Hrun.
    destruct (circuitBreakers w1 !! getServiceFromUrl (url config)) as [cb |].
    - apply execute_inv in Hrun as [[_ ->] | (w2 & f & Hex & ->)].
      + simpl. destruct (_retry config); lia.
      + apply Hop in Hex. simpl. exact Hex.
    - by eapply Hop. }
  destruct (Hgen fuel config w o w' Hrun) as [H1 H2].
  fold attempts_max in H2. split; [done |]. split.
  - destruct (_retry config); lia.
  - intros Hr. rewrite Hr in H2. lia.
Qed.

Lemma request_fetches_bounded_witness :
  exists o w',
    request (scripted [Responds (response 401); Responds (refreshed "t2")])
            2 (get "/api/orders/7")
            (new_APIClient 0 (Some (mkUser (Some "t1") (Some "r1"))))
      = Some (o, w') /\
    (fetches w' <= 0 + 2 * 4 + 1)%nat.
Proof.
  assert (Hrun : exists o w',
             request (scripted [Responds (response 401); Responds (refreshed "t2")])
                     2 (get "/api/orders/7")
                     (new_APIClient 0 (Some (mkUser (Some "t1") (Some "r1"))))
             = Some (o, w'))
    by (eexists; eexists; vm_compute; reflexivity).
  destruct Hrun as (o & w' & Hrun). exists o, w'. split; [exact Hrun |].
  apply (request_fetches_bounded _ _ _ _ _ _ Hrun).
Defined.

(** The bound is reached: a 401, a refresh, and a re-issued request
    whose four attempts all fail are 1 + 1 + 4 calls; with three failed
    attempts before the 401 there are 9. *)
Example nine_fetches :
  match request (scripted [Responds (response 500); Responds (response 500);
                           Responds (response 500); Responds (response 401);
                           Responds (refreshed "t2");
                           Responds (response 500); Responds (response 500);
                           Responds (response 500); Responds (response 500)])
                2 (get "/api/orders/7")
                (new_APIClient 0 (Some (mkUser (Some "t1") (Some "r1")))) with
  | Some (Rejected (Some e), w') => fetches w' = 9%nat /\ status e = Some 500
  | _ => False
  end.
Proof. vm_compute. split; reflexivity. Qed.

(** ** Breakers in the client *)

(** X11.  While the breaker of the service of its URL is OPEN, a request
    is rejected with the circuit-open error before anything else happens:
    no call of [fetch], no event, no change of the metrics, of the clock
    or of any breaker (so the cooldown is not extended). *)
Theorem request_rejected_while_open env fuel config w cb :
  circuitBreakers w !! getServiceFromUrl (url config) = Some cb ->
  state cb = OPEN ->
  exists w',
    request env (S fuel) config w = Some (Rejected (Some circuitOpenError), w') /\
    fetches w' = fetches w /\ log w' = log w /\ metrics w' = metrics w /\
    now w' = now w /\ circuitBreakers w' = circuitBreakers w /\
    storedUser w' = storedUser w.
Proof.
  intros Hcb Hst. eexists. split.
  - cbn [request]. unfold requestInterceptor, Math_random.
    cbn [url set_draws circuitBreakers]. rewrite Hcb.
    apply execute_open with (cb := cb); done.
  - done.
Qed.

Lemma request_rejected_while_open_witness :
  exists w1 w',
    run "products"
        (failures [(None, 1); (None, 2); (None, 3); (None, 4); (None, 5)])
        (new_APIClient 0 None) = Some w1 /\
    request (always 200) 2 (get "/api/products") w1
      = Some (Rejected (Some circuitOpenError), w') /\
    fetches w' = fetches w1.
Proof.
  assert (Hrun : exists w1,
             run "products"
                 (failures [(None, 1); (None, 2); (None, 3); (None, 4); (None, 5)])
                 (new_APIClient 0 None) = Some w1)
    by (eexists; vm_compute; reflexivity).
  destruct Hrun as [w1 Hrun].
  assert (Hnew : circuitBreakers (new_APIClient 0 None) !! "products" =
                 Some (new_CircuitBreaker 5 60000 10000 0))
    by (vm_compute; reflexivity).
  pose proof (run_lookup _ _ _ _ _ Hnew Hrun) as Hcb.
  destruct (request_rejected_while_open (always 200) 1 (get "/api/products") w1 _
              Hcb) as (w' & H1 & H2 & _); [vm_compute; reflexivity |].
  exists w1, w'. split; [exact Hrun |]. split; [exact H1 | exact H2].
Defined.

(** X12.  After [destroy()] a request for any URL settles, is never
    rejected with the circuit-open error and finds the map of breakers
    empty, and a timer that still fires changes nothing. *)
Theorem destroyed_client_has_no_breakers env config w :
  (forall fuel, (2 <= fuel)%nat ->
     exists o w', request env fuel config (destroy w) = Some (o, w')) /\
  (forall fuel o w',
     request env fuel config (destroy w) = Some (o, w') ->
     o <> Rejected (Some circuitOpenError) /\ circuitBreakers w' = ∅) /\
  (forall self t, timer_fires self (set_now t (destroy w)) = set_now t (destroy w)).
Proof.
  split; [| split].
  - intros fuel Hfuel. by apply request_settles.
  - intros fuel o w' Hrun.
    destruct (request_no_breaker env (url config) ∅ (lookup_empty _)
                fuel config (destroy w) o w' eq_refl eq_refl Hrun) as [Ha Hb].
    done.
  - intros self t. unfold timer_fires, with_breaker, destroy. simpl.
    by rewrite alter_empty.
Qed.

(** ** The token refresh *)

(** X13.  A refresh that fails leaves the stored session as it was, and
    without a stored refresh token it fails before any call of [fetch].
    A refresh that succeeds made one call, stores the token of the reply
    and a refresh token that is not empty (the one of the reply, or else
    the old one); the next request then carries that token as its
    [Authorization] header, and keeps the header it had when the reply
    had no token. *)
Theorem refreshToken_session env w :
  match refreshToken env w with
  | (inl e, w') =>
      storedUser w' = storedUser w /\
      ((forall user, storedUser w = Some user -> truthy (refreshToken_of user) = false) ->
       fetches w' = fetches w /\ e = Error "No refresh token available")
  | (inr tok, w') =>
      fetches w' = S (fetches w) /\
      exists old new,
        storedUser w = Some old /\ storedUser w' = Some new /\
        token new = tok /\
        truthy (refreshToken_of new) = true /\
        (forall config,
           authorization (fst (requestInterceptor env config w')) =
           if truthy tok then Some ("Bearer " +:+ default "" tok)
           else authorization config)
  end.
Proof.
  unfold refreshToken, fetch.
  destruct (storedUser w) as [user |] eqn:Huser; cbn [storedUser emit].
  - rewrite Huser.
    destruct (truthy (refreshToken_of user)) eqn:Hrt; cbn [negb].
    + destruct (network env (fetches w)) as [response | kind msg] eqn:Hnet;
        cbn [fetches emit].
      * rewrite Hnet.
        destruct (ok response); cbn [negb].
        -- destruct (r_body response) as [data | msg]; cbn [storedUser].
           ++ split; [reflexivity |]. eexists user, _.
              split; [reflexivity |]. split; [reflexivity |].
              split; [reflexivity |]. cbn [refreshToken_of]. split.
              ** destruct (truthy (j_refreshToken data)) eqn:Hd; done.
              ** intros config. unfold requestInterceptor, Math_random.
                 cbn [storedUser set_storedUser token authorization fst]. done.
           ++ split; [done |]. intros H. specialize (H user eq_refl). congruence.
        -- split; [done |]. intros H. specialize (H user eq_refl). congruence.
      * rewrite Hnet. split; [done |].
        intros H. specialize (H user eq_refl). congruence.
    + split; [done |]. intros _. done.
  - rewrite Huser. split; [done |]. intros _. done.
Qed.

(** A reply without a token: the session loses its token, and the next
    request goes out with the header it had. *)
Example refresh_reply_without_token :
  match refreshToken (scripted [Responds (response 200)])
                     (new_APIClient 0 (Some (mkUser (Some "t1") (Some "r1")))) with
  | (inr tok, w') =>
      tok = None /\
      storedUser w' = Some (mkUser None (Some "r1")) /\
      authorization
        (fst (requestInterceptor (scripted [])
                (mkConfig "/api/orders" None None true 0 (Some "Bearer t1")) w'))
        = Some "Bearer t1"
  | _ => False
  end.
Proof. vm_compute. repeat split; reflexivity. Qed.

(** ** The error of a response *)




(** ** The count and the state of a breaker *)

Lemma below_transition s cb : below cb -> below (transition s cb).
Proof.
  unfold below. intros [H0 H1].
  destruct s as [[v | e] t | t]; simpl; unfold onSuccess, onFailure, monitor;
    repeat case_match; simpl;
    repeat match goal with
           | H : bool_decide _ = true |- _ => apply bool_decide_eq_true_1 in H
           | H : bool_decide _ = false |- _ => apply bool_decide_eq_false_1 in H
           | H : (_ && _) = true |- _ => apply andb_prop in H; destruct H
           | H : (_ <=? _) = true |- _ => apply Z.leb_le in H
           | H : (_ <=? _) = false |- _ => apply Z.leb_gt in H
           end;
    split; try lia; intros; try congruence; try lia; try (apply H1; congruence).
Qed.

Lemma below_transitions steps : forall cb, below cb -> below (transitions steps cb).
Proof.
  induction steps as [| s steps IH]; intros cb H; simpl; [done |].
  apply IH. by apply below_transition.
Qed.

(** X15.  A breaker that was built by its constructor and used by calls
    that run one after the other keeps its threshold and its timeout, its
    count is never negative, and its state tells whether the count has
    reached the threshold: not CLOSED means the count is at the threshold
    or above, and, for a threshold of 1 or more, CLOSED means it is
    below. *)
Theorem breaker_state_follows_count th tmo period t0 self w steps w1 cb :
  circuitBreakers w !! self = Some (new_CircuitBreaker th tmo period t0) ->
  run self steps w = Some w1 ->
  circuitBreakers w1 !! self = Some cb ->
  threshold cb = th /\ timeout cb = tmo /\
  0 <= failureCount cb /\
  (state cb <> CLOSED -> th <= failureCount cb) /\
  (1 <= th -> state cb = CLOSED -> failureCount cb < th).
Proof.
  intros Hnew Hrun Hcb.
  pose proof (run_lookup _ _ _ _ _ Hnew Hrun) as Hcb'.
  rewrite Hcb in Hcb'. injection Hcb' as ->.
  pose proof (transitions_threshold steps (new_CircuitBreaker th tmo period t0)) as Hth.
  pose proof (transitions_timeout steps (new_CircuitBreaker th tmo period t0)) as Htmo.
  pose proof (tripped_transitions steps _ (tripped_new th tmo period t0)) as Htr.
  assert (Hb : below (new_CircuitBreaker th tmo period t0))
    by (split; simpl; lia).
  apply (below_transitions steps) in Hb as [Hb0 Hb1].
  unfold tripped in Htr. rewrite Hth in *. simpl in Hth, Htmo.
  repeat split; done.
Qed.

Lemma breaker_state_follows_count_witness :
  exists w1 cb,
    run "orders"
        (failures [(None, 1); (None, 2)] ++
         [Calls (Resolved (mkJson None None None)) 3] ++
         failures [(None, 4); (None, 5); (None, 6); (None, 7); (None, 8)] ++
         [TimerFires 70000])
        (new_APIClient 0 None) = Some w1 /\
    circuitBreakers w1 !! "orders" = Some cb /\
    (state cb <> CLOSED -> 5 <= failureCount cb).
Proof.
  assert (Hrun : exists w1,
             run "orders"
                 (failures [(None, 1); (None, 2)] ++
                  [Calls (Resolved (mkJson None None None)) 3] ++
                  failures [(None, 4); (None, 5); (None, 6); (None, 7); (None, 8)] ++
                  [TimerFires 70000])
                 (new_APIClient 0 None) = Some w1)
    by (eexists; vm_compute; reflexivity).
  destruct Hrun as [w1 Hrun].
  assert (Hnew : circuitBreakers (new_APIClient 0 None) !! "orders" =
                 Some (new_CircuitBreaker 5 60000 10000 0))
    by (vm_compute; reflexivity).
  pose proof (run_lookup _ _ _ _ _ Hnew Hrun) as Hcb.
  destruct (breaker_state_follows_count 5 60000 10000 0 "orders"
              (new_APIClient 0 None) _ w1 _ Hnew Hrun Hcb)
    as (_ & _ & _ & H & _).
  eexists w1, _. split; [exact Hrun |]. split; [exact Hcb | exact H].
Defined.

(** ** A failed request in the breaker and in the metrics *)





(** Five such requests, twenty attempts: the breaker is OPEN. *)
Example five_failed_requests_open_the_breaker :
  let run5 :=
    w1 ← snd <$> request (always 500) 1 (get "/api/products") (new_APIClient 0 None);
    w2 ← snd <$> request (always 500) 1 (get "/api/products") w1;
    w3 ← snd <$> request (always 500) 1 (get "/api/products") w2;
    w4 ← snd <$> request (always 500) 1 (get "/api/products") w3;
    snd <$> request (always 500) 1 (get "/api/products") w4 in
  match run5 with
  | Some w5 =>
      state <$> circuitBreakers w5 !! "products" = Some OPEN /\
      fetches w5 = 20%nat /\ failedRequests (metrics w5) = 20
  | None => False
  end.
Proof. vm_compute. repeat split; reflexivity. Qed.

(** ** The health check *)

Section Defined.

Variable env : Env.
Variable reissue : Config -> Operation.
Variable r : option Z.

Hypothesis reissue_defined : forall config w o w',
  retries config = r -> reissue config w = Some (o, w') -> o <> Rejected None.

(** A loop that runs at least once, or starts with an error, does not
    throw [undefined]. *)
Lemma attempts_defined rts delay :
  forall n attempt config lastError w o w',
    retries config = r ->
    (n = O -> lastError <> None) ->
    attempts env reissue rts delay n attempt config lastError w = Some (o, w') ->
    o <> Rejected None.
Proof.
  induction n as [| n IH]; intros attempt config lastError w o w' Hr Hlast Hrun.
  - simpl in Hrun. injection Hrun as <- <-. intros H. injection H as H.
    by apply Hlast.
  - destruct (attempts_cases env reissue rts delay n attempt config lastError w)
      as (fo & w1 & _ & _ & [(v & _ & Heq) | (error & _ & _ & _ & Heq)]).
    + rewrite Heq in Hrun. by injection Hrun as <- <-.
    + rewrite Heq in Hrun. clear Heq.
      destruct (errorInterceptor_cases env reissue error config w1)
        as [[_ Hint] | (_ & _ & w2 & evs & _ & _ & _ & Hint)].
      * rewrite Hint in Hrun.
        destruct ((attempt <? rts) && shouldRetry error).
        -- eapply IH in Hrun; [done | done | done].
        -- by injection Hrun as <- <-.
      * destruct Hint as [(refreshError & _ & Hint) | Hint].
        -- rewrite Hint in Hrun.
           destruct ((attempt <? rts) && shouldRetry error).
           ++ eapply IH in Hrun; [done | done | done].
           ++ by injection Hrun as <- <-.
        -- rewrite Hint in Hrun.
           destruct (reissue (set__retry true config)
                             (emit (EvReissue (url config)) w2))
             as [[o2 w3] |] eqn:Hre; [| discriminate].
           apply reissue_defined in Hre; [| done].
           destruct o2 as [v | e].
           ++ by injection Hrun as <- <-.
           ++ destruct ((attempt <? rts) && shouldRetry error).
              ** eapply IH in Hrun; [done | done | congruence].
              ** by injection Hrun as <- <-.
Qed.

End Defined.

(** With a retry budget that is not negative, a request does not throw
    [undefined]. *)
Lemma request_defined env : forall fuel config w o w',
  0 <= default maxRetries (retries config) ->
  request env fuel config w = Some (o, w') ->
  o <> Rejected None.
Proof.
  induction fuel as [| fuel IH]; intros config w o w' Hrts Hrun; [discriminate |].
  cbn [request] in Hrun. unfold requestInterceptor, Math_random in Hrun.
  set (config1 := mkConfig _ _ _ _ _ _) in *.
  set (w1 := set_draws _ w) in *.
  assert (Hop : forall o2 w2,
            executeRequest env (request env fuel) config1 w1 = Some (o2, w2) ->
            o2 <> Rejected None).
  { intros o2 w2 H. unfold executeRequest in H.
    change (retries config1) with (retries config) in H.
    eapply (attempts_defined env (request env fuel) (retries config)); [| | | exact H].
    - intros c w0 o0 w0' Hc Hr. eapply IH; [| exact Hr]. by rewrite Hc.
    - reflexivity.
    - intros Hn. lia. }
  change (url config1) with (url config) in Hrun.
  destruct (circuitBreakers w1 !! getServiceFromUrl (url config)) as [cb |].
  - apply execute_inv in Hrun as [[-> _] | (w2 & f & Hex & _)]; [done |].
    by eapply Hop.
  - by eapply Hop.
Qed.

(** X17.  [healthCheck()] goes through no breaker, whatever state the
    breakers are in: on a client with no breaker named "unknown" its
    request for "/health" settles, is not rejected with the circuit-open
    error, and the health check itself never rejects; it reports
    [healthy], with the time that passed, exactly when the request
    resolved, and leaves every breaker as it was. *)
Theorem healthCheck_bypasses_breakers env fuel w :
  (2 <= fuel)%nat ->
  circuitBreakers w !! "unknown" = None ->
  exists o h w',
    request env fuel (get "/health") w = Some (o, w') /\
    healthCheck env fuel w = Some (h, w') /\
    o <> Rejected (Some circuitOpenError) /\
    (forall e, h <> health_rejected e) /\
    (forall response,
        o = Resolved response <-> h = healthy (now w' - now w) response) /\
    circuitBreakers w' = circuitBreakers w.
Proof.
  intros Hfuel Hnone.
  destruct (request_settles env fuel (get "/health") w Hfuel) as (o & w' & Hrun).
  destruct (request_no_breaker env "/health" (circuitBreakers w) Hnone
              fuel (get "/health") w o w' eq_refl eq_refl Hrun) as [Hcb Hopen].
  assert (Hdef : o <> Rejected None).
  { eapply request_defined; [| exact Hrun]. vm_compute. discriminate. }
  unfold healthCheck. change (buildUnifiedApiUrl HEALTH []) with "/health".
  rewrite Hrun.
  destruct o as [v | [error |]]; [| | done].
  - exists (Resolved v), (healthy (now w' - now w) v), w'.
    split; [done |]. split; [done |]. split; [done |]. split; [done |].
    split; [| done]. intros response. split; intros H; by injection H as ->.
  - exists (Rejected (Some error)), (unhealthy (message error)), w'.
    split; [done |]. split; [done |]. split; [done |]. split; [done |].
    split; [| done]. intros response. split; intros H; discriminate.
Qed.

Lemma healthCheck_bypasses_breakers_witness :
  exists o h w',
    request (always 503) 2 (get "/health")
            (new_APIClient 0 None) = Some (o, w') /\
    healthCheck (always 503) 2 (new_APIClient 0 None)
      = Some (h, w') /\
    circuitBreakers w' = circuitBreakers (new_APIClient 0 None).
Proof.
  destruct (healthCheck_bypasses_breakers
              (always 503) 2 (new_APIClient 0 None))
    as (o & h & w' & H1 & H2 & _ & _ & _ & H3).
  - lia.
  - vm_compute. reflexivity.
  - exists o, h, w'. split; [exact H1 |]. split; [exact H2 | exact H3].
Defined.

(** Four answers 503 to the health check: it is reported and counted, and
    the breakers stay closed. *)
Example unhealthy_after_four_attempts :
  match healthCheck (always 503) 2 (new_APIClient 0 None) with
  | Some (unhealthy _, w') =>
      fetches w' = 4%nat /\
      failedRequests (metrics w') = 4 /\
      circuitBreakers w' = circuitBreakers (new_APIClient 0 None)
  | _ => False
  end.
Proof. vm_compute. repeat split. Qed.

(** ** The breakers over a whole request *)

Section Breakers.

Variable env : Env.
Variable reissue : Config -> Operation.

(** The loop itself writes no breaker: the map it leaves is the one it
    found, or the one that the re-issued request left, whose outcome is
    then the outcome of the loop. *)
Lemma attempts_breakers rts delay :
  forall n attempt config lastError w o w',
    attempts env reissue rts delay n attempt config lastError w = Some (o, w') ->
    circuitBreakers w' = circuitBreakers w \/
    exists w1, circuitBreakers w1 = circuitBreakers w /\
               reissue (set__retry true config) w1 = Some (o, w').
Proof.
  induction n as [| n IH]; intros attempt config lastError w o w' Hrun.
  - simpl in Hrun. injection Hrun as <- <-. by left.
  - destruct (attempts_cases env reissue rts delay n attempt config lastError w)
      as (fo & w1 & _ & Hcb1 & [(v & _ & Heq) | (error & _ & H401 & Hnot & Heq)]).
    + rewrite Heq in Hrun. injection Hrun as <- <-. by left.
    + rewrite Heq in Hrun. clear Heq.
      destruct (errorInterceptor_cases env reissue error config w1)
        as [[_ Hint] | (Hst & _ & w2 & evs & _ & _ & Hcb2 & Hint)].
      * rewrite Hint in Hrun.
        destruct ((attempt <? rts) && shouldRetry error).
        -- apply IH in Hrun as [Hrun | (w3 & Hw3 & Hrun)].
           ++ left. by rewrite Hrun.
           ++ right. exists w3. split; [by rewrite Hw3 | done].
        -- injection Hrun as <- <-. by left.
      * assert (Hsr : shouldRetry error = false).
        { destruct (is_401 (EvAttempt (url config) fo)) eqn:E.
          - by apply H401.
          - by destruct (Hnot eq_refl). }
        rewrite Hsr, andb_false_r in Hrun.
        destruct Hint as [(refreshError & _ & Hint) | Hint].
        -- rewrite Hint in Hrun. injection Hrun as <- <-. left.
           simpl. by rewrite Hcb2.
        -- rewrite Hint in Hrun.
           destruct (reissue (set__retry true config)
                             (emit (EvReissue (url config)) w2))
             as [[o2 w3] |] eqn:Hre; [| discriminate].
           right. exists (emit (EvReissue (url config)) w2).
           split; [simpl; by rewrite Hcb2 |].
           rewrite Hre. by destruct o2; injection Hrun as <- <-.
Qed.

End Breakers.

Lemma tripped_onFailure t cb : tripped cb -> tripped (onFailure t cb).
Proof.
  unfold tripped, onFailure. intros H.
  destruct (threshold cb <=? failureCount cb + 1) eqn:E; simpl.
  - intros _. by apply Z.leb_le.
  - intros Hne. apply H in Hne. lia.
Qed.

Lemma below_onFailure t cb : below cb -> below (onFailure t cb).
Proof.
  unfold below, onFailure. intros [H0 H1].
  destruct (threshold cb <=? failureCount cb + 1) eqn:E; simpl.
  - split; [lia | done].
  - apply Z.leb_gt in E. split; [lia |]. intros _ _. lia.
Qed.

Lemma onSuccess_closes cb :
  state cb <> OPEN -> state (onSuccess cb) = CLOSED /\ failureCount (onSuccess cb) = 0.
Proof.
  intros H. unfold onSuccess; simpl. split; [| done].
  case_bool_decide; [done |]. by destruct (state cb).
Qed.

(** X18.  Over a request that runs with no other call and no timer
    callback in between, re-issued request included: when every breaker
    of the client has a state that agrees with its count (not CLOSED
    only at the threshold or above, CLOSED only below), it is so
    afterwards; and a request that resolves leaves the breaker of its
    service CLOSED with a count of 0. *)
Theorem request_keeps_breakers_consistent env fuel config w o w' :
  request env fuel config w = Some (o, w') ->
  ((forall k cb, circuitBreakers w !! k = Some cb -> tripped cb /\ below cb) ->
   (forall k cb, circuitBreakers w' !! k = Some cb -> tripped cb /\ below cb)) /\
  (forall v cb,
      o = Resolved v ->
      circuitBreakers w' !! getServiceFromUrl (url config) = Some cb ->
      state cb = CLOSED /\ failureCount cb = 0).
Proof.
  revert config w o w'.
  induction fuel as [| fuel IH]; intros config w o w' Hrun; [discriminate |].
  cbn [request] in Hrun. unfold requestInterceptor, Math_random in Hrun.
  set (config1 := mkConfig _ _ _ _ _ _) in *.
  set (w1 := set_draws _ w) in *.
  change (url config1) with (url config) in Hrun.
  set (self := getServiceFromUrl (url config)) in *.
  assert (Hop : forall o2 w2,
            executeRequest env (request env fuel) config1 w1 = Some (o2, w2) ->
            circuitBreakers w2 = circuitBreakers w \/
            ((forall k cb, circuitBreakers w !! k = Some cb -> tripped cb /\ below cb) ->
             (forall k cb, circuitBreakers w2 !! k = Some cb -> tripped cb /\ below cb)) /\
            (forall v cb, o2 = Resolved v ->
                          circuitBreakers w2 !! self = Some cb ->
                          state cb = CLOSED /\ failureCount cb = 0)).
  { intros o2 w2 H. unfold executeRequest in H.
    apply attempts_breakers in H as [H | (w3 & Hw3 & H)]; [by left | right].
    apply IH in H as [H1 H2]. split.
    - intros Hinv. apply H1. intros k cb. rewrite Hw3. apply Hinv.
    - exact H2. }
  destruct (circuitBreakers w1 !! self) as [cb0 |] eqn:Hcb0.
  - unfold execute in Hrun. rewrite Hcb0 in Hrun.
    case_bool_decide as Hopen.
    + injection Hrun as <- <-. split; [done | discriminate].
    + destruct (executeRequest env (request env fuel) config1 w1)
        as [[[v | e] w2] |] eqn:Hex; [| | discriminate]; injection Hrun as <- <-.
      * assert (Hclosed : forall cb, circuitBreakers w2 !! self = Some cb ->
                                     state cb <> OPEN).
        { intros cb Hcb. destruct (Hop _ _ eq_refl) as [Hsame | [_ H2]].
          - rewrite Hsame in Hcb. change (circuitBreakers w) with (circuitBreakers w1) in Hcb.
            by simplify_eq.
          - destruct (H2 v cb eq_refl Hcb) as [-> _]. done. }
        split.
        -- intros Hinv k cb. rewrite lookup_with_breaker. case_decide as Hk.
           ++ destruct (circuitBreakers w2 !! self) as [cb2 |] eqn:Hcb2; [| done].
              intros [= <-].
              destruct (onSuccess_closes cb2 (Hclosed _ eq_refl)) as [Hs Hc].
              assert (Hpre : tripped cb2 /\ below cb2).
              { destruct (Hop _ _ eq_refl) as [Hsame | [H1 _]].
                - apply (Hinv self). by rewrite <- Hsame.
                - by apply (H1 Hinv self). }
              destruct Hpre as [_ [_ Hb]].
              split.
              ** intros Hne. by rewrite Hs in Hne.
              ** split; [by rewrite Hc |]. intros Hth _. rewrite Hc.
                 change (threshold (onSuccess cb2)) with (threshold cb2) in *. lia.
           ++ destruct (Hop _ _ eq_refl) as [Hsame | [H1 _]].
              ** rewrite Hsame. apply Hinv.
              ** by apply H1.
        -- intros v0 cb _. rewrite lookup_with_breaker_eq.
           destruct (circuitBreakers w2 !! self) as [cb2 |] eqn:Hcb2; [| done].
           intros [= <-]. by apply onSuccess_closes, Hclosed.
      * split; [| discriminate].
        intros Hinv k cb. rewrite lookup_with_breaker. case_decide as Hk.
        -- destruct (circuitBreakers w2 !! self) as [cb2 |] eqn:Hcb2; [| done].
           intros [= <-].
           assert (Hpre : tripped cb2 /\ below cb2).
           { destruct (Hop _ _ eq_refl) as [Hsame | [H1 _]].
             - apply (Hinv self). by rewrite <- Hsame.
             - by apply (H1 Hinv self). }
           destruct Hpre. split; [by apply tripped_onFailure | by apply below_onFailure].
        -- destruct (Hop _ _ eq_refl) as [Hsame | [H1 _]].
           ++ rewrite Hsame. apply Hinv.
           ++ by apply H1.
  - destruct (Hop _ _ Hrun) as [Hsame | [H1 H2]].
    + split.
      * intros Hinv k cb. rewrite Hsame. apply Hinv.
      * intros v cb _. rewrite Hsame.
        change (circuitBreakers w) with (circuitBreakers w1). by rewrite Hcb0.
    + split; [exact H1 | exact H2].
Qed.

Lemma request_keeps_breakers_consistent_witness :
  exists o w',
    request (scripted [Responds (response 401); Responds (refreshed "t2")])
            2 (get "/api/orders/7")
            (new_APIClient 0 (Some (mkUser (Some "t1") (Some "r1"))))
      = Some (o, w') /\
    (forall v cb,
        o = Resolved v ->
        circuitBreakers w' !! getServiceFromUrl "/api/orders/7" = Some cb ->
        state cb = CLOSED /\ failureCount cb = 0).
Proof.
  assert (Hrun : exists o w',
             request (scripted [Responds (response 401); Responds (refreshed "t2")])
                     2 (get "/api/orders/7")
                     (new_APIClient 0 (Some (mkUser (Some "t1") (Some "r1"))))
             = Some (o, w'))
    by (eexists; eexists; vm_compute; reflexivity).
  destruct Hrun as (o & w' & Hrun). exists o, w'. split; [exact Hrun |].
  apply (request_keeps_breakers_consistent _ _ _ _ _ _ Hrun).
Defined.

(** A 401, a refresh, and a re-issued request that resolves: the two
    nested calls of [execute] leave the breaker CLOSED. *)
Example reissued_request_closes_breaker :
  match request (scripted [Responds (response 401); Responds (refreshed "t2")])
                2 (get "/api/orders/7")
                (new_APIClient 0 (Some (mkUser (Some "t1") (Some "r1")))) with
  | Some (Resolved _, w') =>
      (state <$> circuitBreakers w' !! "products") = Some CLOSED /\
      (failureCount <$> circuitBreakers w' !! "products") = Some 0 /\
      fetches w' = 3%nat
  | _ => False
  end.
Proof. vm_compute. repeat split. Qed.

(** ** The stored session over a whole request *)

(** A step writes the stored session only when it is a token refresh or
    the handling of an authentication failure. *)
Lemma prim_session env u w w' :
  prim env u w w' ->
  exists evs,
    log w' = log w ++ evs /\
    (count is_refresh evs = O -> count is_authFailure evs = O ->
     storedUser w' = storedUser w).
Proof.
  intros H. destruct H as [w | w success d | w r w' Href | w | w | w attempt delay
                          | w | w t].
  - exists []. by rewrite app_nil_r.
  - by exists [EvAttempt u (network env (fetches w))].
  - destruct (refreshToken_effect _ _ _ _ Href) as (_ & evs & Hevs & Hlog).
    exists evs. split; [done |].
    destruct (refresh_events_counts _ Hevs) as (Hc & _). rewrite Hc. discriminate.
  - by exists [EvAuthFailure].
  - by exists [EvReissue u].
  - by eexists [EvSleep _].
  - exists []. by rewrite app_nil_r.
  - exists []. by rewrite app_nil_r.
Qed.

Lemma steps_session env u w w' :
  rtc (prim env u) w w' ->
  exists new,
    log w' = log w ++ new /\
    (count is_refresh new = O -> count is_authFailure new = O ->
     storedUser w' = storedUser w).
Proof.
  induction 1 as [w | w w1 w' Hstep _ (new & Hlog & IH)].
  - exists []. by rewrite app_nil_r.
  - destruct (prim_session _ _ _ _ Hstep) as (evs & Hlog1 & H1).
    exists (evs ++ new). split; [by rewrite Hlog, Hlog1, app_assoc |].
    rewrite !count_app. intros Hr Ha.
    rewrite IH by lia. apply H1; lia.
Qed.

(** X19.  A request settles (a recursion depth of 2 is enough) and
    writes the stored session only through the 401 interceptor: when no
    attempt receives a 401, or when the configuration has [_retry] set,
    the session (token and refresh token) is afterwards what it was
    before. *)
Theorem request_keeps_session_without_401 env fuel config w :
  (2 <= fuel)%nat ->
  exists o w' new,
    request env fuel config w = Some (o, w') /\
    log w' = log w ++ new /\
    (count is_401 new = O \/ _retry config = true ->
     storedUser w' = storedUser w).
Proof.
  intros Hfuel. destruct fuel as [| [| fuel]]; [lia | lia |].
  assert (Hrun : exists o w' new,
             request env (S (S fuel)) config w = Some (o, w') /\
             log w' = log w ++ new /\
             (count is_401 new = O \/ _retry config = true ->
              count is_refresh new = O /\ count is_authFailure new = O)).
  { destruct (_retry config) eqn:Hretry.
    - destruct (request_retried env (S fuel) config w Hretry)
        as (o & w' & new & Hrun & Hlog & Hr & _ & Ha & _).
      by exists o, w', new.
    - destruct (request_fresh env fuel config w Hretry)
        as (o & w' & new & Hrun & Hlog & Hnone & _).
      exists o, w', new. split; [done |]. split; [done |].
      intros [H | H]; [| discriminate].
      destruct (Hnone H) as (Hr & _ & Ha). done. }
  destruct Hrun as (o & w' & new & Hrun & Hlog & Hnone).
  exists o, w', new. split; [done |]. split; [done |].
  intros H. destruct (Hnone H) as [Hr Ha].
  destruct (steps_session _ _ _ _ (request_steps _ _ _ _ _ _ Hrun))
    as (new' & Hlog' & Hsame).
  rewrite Hlog in Hlog'. apply app_inv_head in Hlog' as <-.
  by apply Hsame.
Qed.

Lemma request_keeps_session_without_401_witness :
  exists o w',
    request (always 500) 2 (get "/api/auth/profile")
            (new_APIClient 0 (Some (mkUser (Some "t1") (Some "r1"))))
      = Some (o, w') /\
    storedUser w' = Some (mkUser (Some "t1") (Some "r1")).
Proof.
  destruct (request_keeps_session_without_401 (always 500) 2
              (get "/api/auth/profile")
              (new_APIClient 0 (Some (mkUser (Some "t1") (Some "r1")))))
    as (o & w' & new & Hrun & Hlog & Hsame); [lia |].
  exists o, w'. split; [exact Hrun |].
  rewrite Hsame; [reflexivity |]. left.
  assert (Hnew : exists l,
             log <$> (snd <$> request (always 500) 2 (get "/api/auth/profile")
                        (new_APIClient 0 (Some (mkUser (Some "t1") (Some "r1")))))
             = Some l /\ count is_401 l = O)
    by (eexists; split; [vm_compute; reflexivity | vm_compute; reflexivity]).
  destruct Hnew as (l & Hl & Hc). rewrite Hrun in Hl. simpl in Hl.
  injection Hl as Hl. rewrite Hlog in Hl. simpl in Hl. by subst.
Defined.
